(** * AIS 60:1 tools: the numeric parser and the formula catalogue

    A shallow embedding of the calculator screen of the application
    (the [toNum] helper, the turn-radius helper, the [CALCS] table and the
    screen's input store) together with the properties of its
    specification.

    - JavaScript Numbers are IEEE 754 binary64 values.  They are modelled by
      the Standard Library's [spec_float] with precision 53 and maximal
      exponent 1024, and the arithmetic operators by [SFadd], [SFsub],
      [SFmul] and [SFdiv] (round to nearest, ties to even).
    - JavaScript strings are modelled by [string]; a character stands for
      the code unit of the same number (0..255).  The display texts of the
      table (titles, labels, equations) are kept as the source file writes
      them; no formula reads them.
    - The input store (a plain object used as a map from field key to the
      typed text) is a [gmap string string]; a missing property reads as
      [Undefined].
    - [Math.tan] is implementation-approximated: the catalogue takes it as
      a parameter, and every statement holds for any tangent. *)

From Stdlib Require Import ZArith Lia Bool List String Ascii.
From Stdlib Require Import Floats.SpecFloat.
From Stdlib Require Decimal DecimalString DecimalN DecimalPos.
From stdpp Require Import base option strings gmap.

Local Open Scope string_scope.
Local Open Scope Z_scope.

(** ** Numbers *)

Abbreviation float := spec_float.

Definition prec : Z := 53.
Definition emax : Z := 1024.

Definition add : float -> float -> float := SFadd prec emax.
Definition sub : float -> float -> float := SFsub prec emax.
Definition mul : float -> float -> float := SFmul prec emax.
Definition div : float -> float -> float := SFdiv prec emax.

Declare Scope js_scope.
Delimit Scope js_scope with js.
Infix "+" := add : js_scope.
Infix "-" := sub : js_scope.
Infix "*" := mul : js_scope.
Infix "/" := div : js_scope.

Definition NaN : float := S754_nan.
Definition pos_zero : float := S754_zero false.

(** The Number nearest to [m * 10 ^ e], for [m >= 0], with the sign [neg]:
    the value of a decimal literal with digits [m] and decimal exponent [e],
    rounded once, to nearest with ties to even, as the engines do for a
    literal of any length.  A non-negative exponent scales the integer and
    rounds it; a negative one divides by the power of ten, keeps the
    position of the remainder and rounds. *)
Definition of_decimal (neg : bool) (m e : Z) : float :=
  match m with
  | Zpos _ =>
      if 0 <=? e then binary_round prec emax neg (Z.to_pos (m * 10 ^ e)) 0
      else
        let '(q, e', l) := SFdiv_core_binary prec emax m 0 (10 ^ (- e)) 0 in
        binary_round_aux prec emax neg q e' l
  | _ => S754_zero neg
  end.

(** Numeric literals of the source: [dec 607612 (-2)] is [6076.12]. *)
Definition dec (m e : Z) : float := of_decimal false m e.
Definition int (n : Z) : float := dec n 0.

(** [Math.PI], the double 0x1.921fb54442d18p+1. *)
Definition Math_PI : float := S754_finite false 7074237752028440 (-51).

(** Finite Numbers: everything but NaN and the two infinities. *)
Definition finite (x : float) : bool :=
  match x with
  | S754_zero _ | S754_finite _ _ _ => true
  | S754_infinity _ | S754_nan => false
  end.

Definition is_nan (x : float) : bool :=
  match x with S754_nan => true | _ => false end.

Definition is_zero (x : float) : bool :=
  match x with S754_zero _ => true | _ => false end.

(** ToBoolean on a Number: [+0], [-0] and [NaN] are falsy. *)
Definition truthy (x : float) : bool :=
  match x with
  | S754_zero _ | S754_nan => false
  | _ => true
  end.

(** [a || b] on Numbers. *)
Definition or_else (a b : float) : float := if truthy a then a else b.

(** The relational operator [<] on Numbers (false when either is NaN). *)
Definition lt (x y : float) : bool := SFltb x y.

Definition Math_abs (x : float) : float := SFabs x.

(** [Math.max(a, b)]: starting from -Infinity, each argument in turn:
    a NaN argument makes the result NaN, [+0] replaces [-0], and a strictly
    larger argument replaces the highest so far. *)
Definition max_step (highest : option float) (x : float) : option float :=
  match highest with
  | None => None
  | Some h =>
      if is_nan x then None
      else
        match x, h with
        | S754_zero false, S754_zero true => Some x
        | _, _ => if lt h x then Some x else Some h
        end
  end.

Definition Math_max (a b : float) : float :=
  match max_step (max_step (Some (S754_infinity true)) a) b with
  | Some h => h
  | None => NaN
  end.

(** ** Strings and [parseFloat] *)

(** White space and line terminators among the code units below 256:
    TAB, LF, VT, FF, CR, SP and NBSP. *)
Definition is_white (c : ascii) : bool :=
  let n := N_of_ascii c in
  ((9 <=? n) && (n <=? 13) || (n =? 32) || (n =? 160))%N.

Fixpoint trim_start (s : string) : string :=
  match s with
  | String c r => if is_white c then trim_start r else s
  | EmptyString => s
  end.

(** [s.replace(/,/g, '')]: every comma is dropped, wherever it stands. *)
Fixpoint remove_commas (s : string) : string :=
  match s with
  | String c r =>
      if Ascii.eqb c "," then remove_commas r else String c (remove_commas r)
  | EmptyString => EmptyString
  end.

Definition digit_of (c : ascii) : option Z :=
  let n := Z.of_N (N_of_ascii c) in
  if (48 <=? n) && (n <=? 57) then Some (n - 48) else None.

(** The longest run of decimal digits at the head of [s], read on top of
    the accumulator [acc]: its value, the number of digits and the rest. *)
Fixpoint read_digits (acc cnt : Z) (s : string) : Z * Z * string :=
  match s with
  | String c r =>
      match digit_of c with
      | Some d => read_digits (10 * acc + d) (cnt + 1) r
      | None => (acc, cnt, s)
      end
  | EmptyString => (acc, cnt, s)
  end.

(** An optional ExponentPart at the head of [s]: [e] or [E], an optional
    sign and at least one digit.  Anything else is not part of the literal
    and counts for 0. *)
Definition read_exponent (s : string) : Z :=
  match s with
  | String c r =>
      if Ascii.eqb c "e" || Ascii.eqb c "E" then
        let '(neg, r') :=
          match r with
          | String "+" r'' => (false, r'')
          | String "-" r'' => (true, r'')
          | _ => (false, r)
          end in
        let '(x, n, _) := read_digits 0 0 r' in
        if n =? 0 then 0 else if neg then - x else x
      else 0
  | EmptyString => 0
  end.

Inductive literal : Type :=
  | LitInfinity
  | LitDecimal (m e : Z).

(** The longest prefix of [s] that is a StrUnsignedDecimalLiteral
    ([Infinity], [digits], [digits . digits?] or [. digits], each but the
    first with an optional exponent), as digits and decimal exponent. *)
Definition unsigned_literal (s : string) : option literal :=
  if String.prefix "Infinity" s then Some LitInfinity
  else
    let '(i, ni, r1) := read_digits 0 0 s in
    match r1 with
    | String "." r2 =>
        let '(m, nf, r3) := read_digits i 0 r2 in
        if (ni =? 0) && (nf =? 0) then None
        else Some (LitDecimal m (read_exponent r3 - nf))
    | _ => if ni =? 0 then None else Some (LitDecimal i (read_exponent r1))
    end.

(** The sign and the unsigned literal at the head of the trimmed string. *)
Definition signed_literal (s : string) : option (bool * literal) :=
  let t := trim_start s in
  let '(neg, u) :=
    match t with
    | String "+" r => (false, r)
    | String "-" r => (true, r)
    | _ => (false, t)
    end in
  match unsigned_literal u with
  | Some l => Some (neg, l)
  | None => None
  end.

(** [parseFloat(s)]: NaN when no prefix is a literal, else its value. *)
Definition parseFloat (s : string) : float :=
  match signed_literal s with
  | None => NaN
  | Some (neg, LitInfinity) => S754_infinity neg
  | Some (neg, LitDecimal m e) => of_decimal neg m e
  end.

(** ** Values *)

(** What [toNum] is applied to: a property of the store (a string, or
    undefined when missing), or a Number in [turnRadiusNM]. *)
Inductive value : Type :=
  | Undefined
  | Null
  | Str (s : string)
  | Number (x : float).

(** A result is [number | null]: [None] is [null]. *)
Abbreviation result := (option float).

Definition to_value (r : result) : value :=
  match r with
  | Some x => Number x
  | None => Null
  end.

(** ToNumber on a result: [null] counts as [+0]. *)
Definition num (r : result) : float :=
  match r with
  | Some x => x
  | None => pos_zero
  end.

(** [Number.isFinite(r)]: false on [null], which is not a Number. *)
Definition Number_isFinite (r : result) : bool :=
  match r with
  | Some x => finite x
  | None => false
  end.

(** [a ?? b] *)
Definition nullish (a b : value) : value :=
  match a with
  | Undefined | Null => b
  | _ => a
  end.

(** [parseFloat(String(x))] for a Number [x].  [String(x)] is the shortest
    decimal numeral that reads back as [x] (Number::toString): a finite
    non-zero [x] is read back as it is, both zeros print as "0" and are read
    back as [+0], and "NaN" and "Infinity" are read back as NaN and the
    infinity.  No such numeral holds a comma. *)
Definition reread (x : float) : float :=
  match x with
  | S754_zero _ => pos_zero
  | _ => x
  end.

(** [parseFloat(String(w).replace(/,/g, ''))] *)
Definition parse_value (w : value) : float :=
  match w with
  | Undefined => parseFloat (remove_commas "undefined")
  | Null => parseFloat (remove_commas "null")
  | Str s => parseFloat (remove_commas s)
  | Number x => reread x
  end.

(** The numeric parser of the screen. *)
Definition toNum (v : value) (fallback : result) : result :=
  let n := parse_value (nullish v (Str "")) in
  if finite n then Some n else fallback.

(** The default value of [toNum]'s second parameter: [0]. *)
Definition fallback0 : result := Some (int 0).

(** ** The input store and the catalogue's records *)

(** The Input Value Store: field key to typed text. *)
Abbreviation store := (gmap string string).

(** [v.k]: a property of the store, [undefined] when it is missing. *)
Definition prop (v : store) (k : string) : value :=
  match v !! k with
  | Some s => Str s
  | None => Undefined
  end.

Record field : Type := Field {
  key : string;
  label : string;
  default : option string;
  optional : bool
}.

Record output : Type := Output {
  out_key : string;
  out_label : string
}.

(** The object a [compute] returns: its properties in the order written. *)
Abbreviation outputs_of := (list (string * result)).

Record calc : Type := Calc {
  id : string;
  title : string;
  fields : list field;
  compute : store -> outputs_of;
  outputs : list output;
  equation : option string
}.

(** A field with a key and a label only. *)
Definition fld (k l : string) : field := Field k l None false.

(** The line break of the two-line equation texts. *)
Definition nl : string := String (ascii_of_N 10) EmptyString.

(** ** Math helpers and the compute functions *)

Section Catalogue.

(** [Math.tan] is implementation-approximated: the catalogue is read for
    an arbitrary tangent on Numbers. *)
Variable Math_tan : float -> float.

Local Open Scope js_scope.

Definition ftPerNMFromDegrees (deg : float) : float :=
  dec 607612 (-2) * Math_tan ((deg * Math_PI) / int 180).

(** Physics-based turn radius. *)
Definition turnRadiusNM (tasKt bankDeg : value) : float :=
  let Vfts := num (toNum tasKt fallback0) * dec 168781 (-5) in
  let g := dec 32174 (-3) in
  let phi := (num (toNum bankDeg fallback0) * Math_PI) / int 180 in
  let r_ft := (Vfts * Vfts) / (g * Math_tan (or_else phi (dec 1 (-4)))) in
  r_ft / dec 607612 (-2).

Definition gradient_compute (v : store) : outputs_of :=
  [("gradientFtPerNM",
    Some (num (toNum (prop v "altitudeChangeFt") fallback0)
          / Math_max (dec 1 (-9)) (num (toNum (prop v "distanceNM") fallback0))))].

Definition pitch_compute (v : store) : outputs_of :=
  [("pitchDeg",
    Some (num (toNum (prop v "gradientPercent") fallback0) / int 100
          + num (toNum (prop v "xCorrectionDeg") fallback0)))].

Definition ias2tas_compute (v : store) : outputs_of :=
  let ktas := num (toNum (prop v "iasKt") fallback0)
              + int 5 * (num (toNum (prop v "pressureAltFt") fallback0) / int 1000) in
  [("ktas", Some ktas); ("tasNMmin", Some (ktas / int 60))].

Definition avgTas_compute (v : store) : outputs_of :=
  let avg := (num (toNum (prop v "tasLow") fallback0)
              + num (toNum (prop v "tasHigh") fallback0)) / int 2 in
  [("avgTasKt", Some avg); ("avgTasNMmin", Some (avg / int 60))].

Definition vvi_compute (v : store) : outputs_of :=
  let gradient := toNum (prop v "gradientFtPerNM") fallback0 in
  let tasNMmin := toNum (prop v "tasNMmin") None in
  let tasNMhr := toNum (prop v "tasNMhr") None in
  if negb (Number_isFinite gradient) then [("vviFPM", None)]
  else
    let tasFinal : option result :=
      if Number_isFinite tasNMmin then Some tasNMmin
      else if Number_isFinite tasNMhr then Some (Some (num tasNMhr / int 60))
      else None in
    match tasFinal with
    | None => [("vviFPM", None)]
    | Some tas => [("vviFPM", Some (num gradient * num tas))]
    end.

Definition turnRadius_compute (v : store) : outputs_of :=
  [("rNM",
    Some (turnRadiusNM (to_value (toNum (prop v "tasKt") fallback0))
                       (to_value (toNum (prop v "bankDeg") fallback0))))].

Definition leadRadial_compute (v : store) : outputs_of :=
  let lead := (int 60 * num (toNum (prop v "rNM") fallback0))
              / Math_max (dec 1 (-9)) (num (toNum (prop v "arcingDME") fallback0)) in
  [("leadDegMinus", Some (num (toNum (prop v "interceptRadial") fallback0) - lead));
   ("leadDegPlus", Some (num (toNum (prop v "interceptRadial") fallback0) + lead))].

Definition leadDME_compute (v : store) : outputs_of :=
  [("inbound",
    Some (num (toNum (prop v "arcingDME") fallback0)
          - num (toNum (prop v "rNM") fallback0)));
   ("outbound",
    Some (num (toNum (prop v "arcingDME") fallback0)
          + num (toNum (prop v "rNM") fallback0)))].

Definition arcDistance_compute (v : store) : outputs_of :=
  [("arcNM",
    Some ((Math_abs (num (toNum (prop v "startRadial") fallback0)
                     - num (toNum (prop v "endRadial") fallback0)) / int 60)
          * num (toNum (prop v "arcingDME") fallback0)))].

Definition turningDistance_compute (v : store) : outputs_of :=
  [("turnDistNM",
    Some ((num (toNum (prop v "degrees") fallback0) / int 360) * int 2 * Math_PI
          * num (toNum (prop v "rNM") fallback0)))].

Definition loss90_compute (v : store) : outputs_of :=
  let r := num (toNum (prop v "rNM") fallback0) in
  let arc := (int 90 / int 360) * int 2 * Math_PI * r in
  let loss := int 2 * r - arc in
  [("lossNM", Some loss)].

Definition climbDescend_compute (v : store) : outputs_of :=
  [("nm",
    Some (num (toNum (prop v "altitudeToClimbFt") fallback0)
          / Math_max (dec 1 (-9))
                     (num (toNum (prop v "climbGradientFtPerNM") fallback0))))].

Definition vdp_compute (v : store) : outputs_of :=
  let ftPerNM := ftPerNMFromDegrees (num (toNum (prop v "slopeDeg") fallback0)) in
  [("vdpNM",
    Some (num (toNum (prop v "hatFt") fallback0) / Math_max (dec 1 (-9)) ftPerNM));
   ("ftPerNM", Some ftPerNM)].

Definition timeOut_compute (v : store) : outputs_of :=
  let gs := num (toNum (prop v "groundSpeedKt") fallback0) in
  let nmPerMin := gs / int 60 in
  let threeMin := nmPerMin * int 3 in
  let twoMin := nmPerMin * int 2 in
  let oneMin := nmPerMin * int 1 in
  let custom := num (toNum (prop v "customMinutes") fallback0) in
  [("dist3min", Some threeMin);
   ("dist2min", Some twoMin);
   ("dist1min", Some oneMin);
   ("distCustom", if truthy custom then Some (nmPerMin * custom) else None)].

Local Close Scope js_scope.

(** ** Calculator definitions *)

Definition CALCS : list calc :=
  [ Calc "gradient" "1) Gradient (ft/NM)"
      [ fld "altitudeChangeFt" "Altitude Change (ft)";
        fld "distanceNM" "Distance Traveled (NM)" ]
      gradient_compute
      [ Output "gradientFtPerNM" "Gradient (ft/NM)" ]
      (Some "Gradient (ft/NM) = Δ Altitude (ft) ÷ Distance (NM)");
    Calc "pitch" "2) Pitch from Gradient"
      [ fld "gradientPercent" "Gradient (%)";
        fld "xCorrectionDeg" "Level Pitch Attitude x° (optional)" ]
      pitch_compute
      [ Output "pitchDeg" "Pitch to Fly (°)" ]
      (Some "Pitch (°) = (Gradient (%) ÷ 100) + Level Pitch (°)");
    Calc "ias2tas" "3) IAS → TAS (and NM/min)"
      [ fld "iasKt" "IAS (kt)";
        fld "pressureAltFt" "Altitude (ft, ~PA)" ]
      ias2tas_compute
      [ Output "ktas" "TAS (kt)";
        Output "tasNMmin" "TAS (NM/min)" ]
      (Some ("TAS (kt) ≈ IAS + 5 × (Altitude ÷ 1000)" ++ nl
             ++ "TAS (NM/min) = TAS ÷ 60"));
    Calc "avgTas" "4) Average TAS"
      [ fld "tasLow" "TAS @ lower alt (kt)";
        fld "tasHigh" "TAS @ higher alt (kt)" ]
      avgTas_compute
      [ Output "avgTasKt" "Average TAS (kt)";
        Output "avgTasNMmin" "Average TAS (NM/min)" ]
      (Some ("Average TAS = (TAS_low + TAS_high) ÷ 2" ++ nl
             ++ "Average TAS (NM/min) = Average TAS ÷ 60"));
    Calc "vvi" "5) VVI from Gradient & TAS"
      [ fld "gradientFtPerNM" "Gradient (ft/NM)";
        Field "tasNMmin" "TAS (NM/min, optional)" None true;
        Field "tasNMhr" "TAS (NM/hr, optional)" None true ]
      vvi_compute
      [ Output "vviFPM" "VVI (ft/min)" ]
      (Some ("VVI (ft/min) = Gradient (ft/NM) × TAS (NM/min)" ++ nl
             ++ "(or TAS (NM/hr) ÷ 60)"));
    Calc "turnRadius" "6) Turn Radius (bank-aware physics)"
      [ fld "tasKt" "TAS (kt)";
        Field "bankDeg" "Bank Angle (°)" (Some "30") false ]
      turnRadius_compute
      [ Output "rNM" "Turn Radius (NM)" ]
      (Some "r (NM) = (V² ÷ (g × tan φ)) ÷ 6076.12");
    Calc "leadRadial" "7) Lead Radial (deg)"
      [ fld "rNM" "Turn Radius r (NM)";
        fld "arcingDME" "Arcing DME (NM)";
        fld "interceptRadial" "Intercept Radial (deg)" ]
      leadRadial_compute
      [ Output "leadDegMinus" "Lead Radial (−) deg";
        Output "leadDegPlus" "Lead Radial (+) deg" ]
      (Some "Lead (°) = (60 × r) ÷ Arcing DME");
    Calc "leadDME" "8) Lead DME (NM)"
      [ fld "arcingDME" "Arcing DME (NM)";
        fld "rNM" "Turn Radius r (NM)" ]
      leadDME_compute
      [ Output "inbound" "Lead DME inbound (NM)";
        Output "outbound" "Lead DME outbound (NM)" ]
      (Some "Lead DME = Arcing DME ± r");
    Calc "arcDistance" "9) Arcing Distance (NM)"
      [ fld "startRadial" "Starting Radial (deg)";
        fld "endRadial" "Ending Radial (deg)";
        fld "arcingDME" "Arcing DME (NM)" ]
      arcDistance_compute
      [ Output "arcNM" "Arcing Distance (NM)" ]
      (Some "Arc Distance (NM) = (|Start − End| ÷ 60) × Arcing DME");
    Calc "turningDistance" "10) Turning Distance for N°"
      [ fld "degrees" "Turn Amount (deg)";
        fld "rNM" "Turn Radius r (NM)" ]
      turningDistance_compute
      [ Output "turnDistNM" "Turning Distance (NM)" ]
      (Some "Turn Distance (NM) = (Degrees ÷ 360) × 2πr");
    Calc "loss90" "11) Distance Lost to a 90° Turn"
      [ fld "rNM" "Turn Radius r (NM)" ]
      loss90_compute
      [ Output "lossNM" "Distance Lost (NM)" ]
      (Some "Loss (NM) = (2 × r) − (πr ÷ 2)");
    Calc "climbDescend" "12) Distance to Climb/Descend (NM)"
      [ fld "altitudeToClimbFt" "Δ Altitude (ft)";
        fld "climbGradientFtPerNM" "Climb/Descent Gradient (ft/NM)" ]
      climbDescend_compute
      [ Output "nm" "Distance (NM)" ]
      (Some "Distance (NM) = Δ Altitude (ft) ÷ Gradient (ft/NM)");
    Calc "vdp" "13) VDP (NM from Threshold)"
      [ fld "hatFt" "HAT (ft)";
        fld "slopeDeg" "Glideslope/VDA (deg)" ]
      vdp_compute
      [ Output "vdpNM" "VDP (NM)";
        Output "ftPerNM" "Slope (ft/NM)" ]
      (Some ("VDP (NM) = HAT (ft) ÷ Slope (ft/NM)" ++ nl
             ++ "Slope (ft/NM) = 6076.12 × tan(Slope °)"));
    Calc "timeOut" "14) Distance for 3-2-1 (and Custom) Minutes Out"
      [ fld "groundSpeedKt" "Groundspeed (kt)";
        fld "customMinutes" "Custom Minutes Out (optional)" ]
      timeOut_compute
      [ Output "dist3min" "3 min out (NM)";
        Output "dist2min" "2 min out (NM)";
        Output "dist1min" "1 min out (NM)";
        Output "distCustom" "Custom min out (NM)" ]
      (Some "Distance (NM) = (Groundspeed ÷ 60) × Time (min)") ].

(** The formula with a given identifier, the first one in the table. *)
Definition find_calc (i : string) : option calc :=
  List.find (fun c => String.eqb (id c) i) CALCS.

End Catalogue.

(** ** The screen's state *)

(** [f.default ?? ''] *)
Definition default_text (f : field) : string :=
  match default f with
  | Some s => s
  | None => ""
  end.

Section Screen.

Variable Math_tan : float -> float.

(** Every field of every formula, in table order. *)
Definition declared_fields : list field :=
  List.flat_map fields (CALCS Math_tan).

(** The initializer of the state: [v[f.key] = f.default ?? ''] for every
    field of every formula, in order, starting from the empty object. *)
Definition initial_values : store :=
  fold_left
    (fun v c =>
       fold_left (fun v f => <[key f := default_text f]> v) (fields c) v)
    (CALCS Math_tan) ∅.

End Screen.

(** [setField(k, val)]: a copy of the store with [k] set. *)
Definition setField (k val : string) (p : store) : store := <[k := val]> p.

(** What the user does to the store: typing into a field, or the
    "Clear All Inputs" button, whose handler is [setValues({})]. *)
Inductive event : Type :=
  | Typed (k val : string)
  | ClearAll.

Definition handle (values : store) (e : event) : store :=
  match e with
  | Typed k val => setField k val values
  | ClearAll => ∅
  end.

(** The text shown in a field: [String(values[f.key] ?? '')], on a store
    of strings. *)
Definition field_text (values : store) (f : field) : string :=
  match nullish (prop values (key f)) (Str "") with
  | Str s => s
  | _ => ""
  end.

(** [out[k]] on the object a [compute] returned; [None] when there is no
    such property. *)
Fixpoint out_prop (out : outputs_of) (k : string) : option result :=
  match out with
  | (k', r) :: rest => if String.eqb k' k then Some r else out_prop rest k
  | [] => None
  end.

(** ** The single-file variant of the application

    The same helper and table, as the single-file application has them
    before the screen was split into components: [toNum] without the
    [?? ''], the [vvi] formula with a [null] fallback for the gradient, and
    thirteen formulas (no [timeOut]).  The other twelve compute functions
    are those of the screen, word for word. *)
Module App.

Definition toNum (v : value) (fallback : result) : result :=
  let n := parse_value v in
  if finite n then Some n else fallback.

(** [r == null] and [r != null] on a result. *)
Definition is_null (r : result) : bool :=
  match r with None => true | Some _ => false end.

Local Open Scope js_scope.

Definition vvi_compute (v : store) : outputs_of :=
  let gradient := toNum (prop v "gradientFtPerNM") None in
  let tasMin := toNum (prop v "tasNMmin") None in
  let tasHr := toNum (prop v "tasNMhr") None in
  if is_null gradient then [("vviFPM", None)]
  else
    let tasNMminFinal : option result :=
      if negb (is_null tasMin) then Some tasMin
      else if negb (is_null tasHr) then Some (Some (num tasHr / int 60))
      else None in
    match tasNMminFinal with
    | None => [("vviFPM", None)]
    | Some tas => [("vviFPM", Some (num gradient * num tas))]
    end.

(** The identifiers of that file's table, in order. *)
Definition ids : list string :=
  [ "gradient"; "pitch"; "ias2tas"; "avgTas"; "vvi"; "turnRadius";
    "leadRadial"; "leadDME"; "arcDistance"; "turningDistance"; "loss90";
    "climbDescend"; "vdp" ].

End App.

(** ** Vocabulary of the statements *)

(** A character that can begin a StrDecimalLiteral with its sign: a
    digit, a sign, the dot, or the [I] of [Infinity]. *)
Definition numeric_start (c : ascii) : bool :=
  match digit_of c with
  | Some _ => true
  | None => Ascii.eqb c "+" || Ascii.eqb c "-" || Ascii.eqb c "." || Ascii.eqb c "I"
  end.

(** [below b x]: the Number [x] is finite and smaller than [2 ^ b] in
    magnitude (its mantissa has [digits2_pos m] bits). *)
Definition below (b : Z) (x : float) : bool :=
  match x with
  | S754_zero _ => true
  | S754_finite _ m e => Zpos (digits2_pos m) + e <=? b
  | S754_infinity _ | S754_nan => false
  end.

(** The literal found is a decimal one (not [Infinity], not missing). *)
Definition is_decimal (o : option literal) : bool :=
  match o with
  | Some (LitDecimal _ _) => true
  | _ => false
  end.

(** The turn radius in NM as the specification writes it:
    (t * 1.68781)^2 / (32.174 * tan(a)) / 6076.12. *)
Definition radius_of (tan : float -> float) (t a : float) : float :=
  div (div (mul (mul t (dec 168781 (-5))) (mul t (dec 168781 (-5))))
           (mul (dec 32174 (-3)) (tan a)))
      (dec 607612 (-2)).

(** [n] zeros in a row. *)
Fixpoint zeros (n : nat) : string :=
  match n with
  | O => EmptyString
  | S n' => String "0" (zeros n')
  end.

(** A store from the list of its entries. *)
Definition store_of (l : list (string * string)) : store := list_to_map l.

(** ** The single-file variant's table

    The helpers and the thirteen formulas of the single-file application,
    written with its own [toNum] ([App.toNum]); its entries have no
    [equation]. *)
Module AppCalcs.

Section Catalogue.

Variable Math_tan : float -> float.

Local Open Scope js_scope.

Definition ftPerNMFromDegrees (deg : float) : float :=
  dec 607612 (-2) * Math_tan ((deg * Math_PI) / int 180).

Definition turnRadiusNM (tasKt bankDeg : value) : float :=
  let Vfts := num (App.toNum tasKt fallback0) * dec 168781 (-5) in
  let g := dec 32174 (-3) in
  let phi := (num (App.toNum bankDeg fallback0) * Math_PI) / int 180 in
  let r_ft := Vfts * Vfts / (g * Math_tan (or_else phi (dec 1 (-4)))) in
  r_ft / dec 607612 (-2).

Definition gradient_compute (v : store) : outputs_of :=
  [("gradientFtPerNM",
    Some (num (App.toNum (prop v "altitudeChangeFt") fallback0)
          / Math_max (dec 1 (-9)) (num (App.toNum (prop v "distanceNM") fallback0))))].

Definition pitch_compute (v : store) : outputs_of :=
  [("pitchDeg",
    Some (num (App.toNum (prop v "gradientPercent") fallback0) / int 100
          + num (App.toNum (prop v "xCorrectionDeg") fallback0)))].

Definition ias2tas_compute (v : store) : outputs_of :=
  let ktas := num (App.toNum (prop v "iasKt") fallback0)
              + int 5 * (num (App.toNum (prop v "pressureAltFt") fallback0) / int 1000) in
  [("ktas", Some ktas); ("tasNMmin", Some (ktas / int 60))].

Definition avgTas_compute (v : store) : outputs_of :=
  let avg := (num (App.toNum (prop v "tasLow") fallback0)
              + num (App.toNum (prop v "tasHigh") fallback0)) / int 2 in
  [("avgTasKt", Some avg); ("avgTasNMmin", Some (avg / int 60))].

Definition turnRadius_compute (v : store) : outputs_of :=
  [("rNM",
    Some (turnRadiusNM (to_value (App.toNum (prop v "tasKt") fallback0))
                       (to_value (App.toNum (prop v "bankDeg") fallback0))))].

Definition leadRadial_compute (v : store) : outputs_of :=
  let lead := (int 60 * num (App.toNum (prop v "rNM") fallback0))
              / Math_max (dec 1 (-9)) (num (App.toNum (prop v "arcingDME") fallback0)) in
  [("leadDegMinus", Some (num (App.toNum (prop v "interceptRadial") fallback0) - lead));
   ("leadDegPlus", Some (num (App.toNum (prop v "interceptRadial") fallback0) + lead))].

Definition leadDME_compute (v : store) : outputs_of :=
  [("inbound",
    Some (num (App.toNum (prop v "arcingDME") fallback0)
          - num (App.toNum (prop v "rNM") fallback0)));
   ("outbound",
    Some (num (App.toNum (prop v "arcingDME") fallback0)
          + num (App.toNum (prop v "rNM") fallback0)))].

Definition arcDistance_compute (v : store) : outputs_of :=
  [("arcNM",
    Some ((Math_abs (num (App.toNum (prop v "startRadial") fallback0)
                     - num (App.toNum (prop v "endRadial") fallback0)) / int 60)
          * num (App.toNum (prop v "arcingDME") fallback0)))].

Definition turningDistance_compute (v : store) : outputs_of :=
  [("turnDistNM",
    Some ((num (App.toNum (prop v "degrees") fallback0) / int 360) * int 2 * Math_PI
          * num (App.toNum (prop v "rNM") fallback0)))].

Definition loss90_compute (v : store) : outputs_of :=
  let r := num (App.toNum (prop v "rNM") fallback0) in
  let arc := (int 90 / int 360) * int 2 * Math_PI * r in
  let loss := int 2 * r - arc in
  [("lossNM", Some loss)].

Definition climbDescend_compute (v : store) : outputs_of :=
  [("nm",
    Some (num (App.toNum (prop v "altitudeToClimbFt") fallback0)
          / Math_max (dec 1 (-9))
                     (num (App.toNum (prop v "climbGradientFtPerNM") fallback0))))].

Definition vdp_compute (v : store) : outputs_of :=
  let ftPerNM := ftPerNMFromDegrees (num (App.toNum (prop v "slopeDeg") fallback0)) in
  [("vdpNM",
    Some (num (App.toNum (prop v "hatFt") fallback0) / Math_max (dec 1 (-9)) ftPerNM));
   ("ftPerNM", Some ftPerNM)].

Definition CALCS : list calc :=
  [ Calc "gradient" "1) Gradient (ft/NM)"
      [ fld "altitudeChangeFt" "Altitude Change (ft)";
        fld "distanceNM" "Distance Traveled (NM)" ]
      gradient_compute
      [ Output "gradientFtPerNM" "Gradient (ft/NM)" ]
      None;
    Calc "pitch" "2) Pitch from Gradient"
      [ fld "gradientPercent" "Gradient (%)";
        fld "xCorrectionDeg" "Correction x° (optional)" ]
      pitch_compute
      [ Output "pitchDeg" "Pitch to Fly (°)" ]
      None;
    Calc "ias2tas" "3) IAS → TAS (and NM/min)"
      [ fld "iasKt" "IAS (kt)";
        fld "pressureAltFt" "Altitude (ft, ~PA)" ]
      ias2tas_compute
      [ Output "ktas" "TAS (kt)";
        Output "tasNMmin" "TAS (NM/min)" ]
      None;
    Calc "avgTas" "4) Average TAS"
      [ fld "tasLow" "TAS @ lower alt (kt)";
        fld "tasHigh" "TAS @ higher alt (kt)" ]
      avgTas_compute
      [ Output "avgTasKt" "Average TAS (kt)";
        Output "avgTasNMmin" "Average TAS (NM/min)" ]
      None;
    Calc "vvi" "5) VVI from Gradient & TAS"
      [ fld "gradientFtPerNM" "Gradient (ft/NM)";
        Field "tasNMmin" "TAS (NM/min, optional)" None true;
        Field "tasNMhr" "TAS (NM/hr, optional)" None true ]
      App.vvi_compute
      [ Output "vviFPM" "VVI (ft/min)" ]
      None;
    Calc "turnRadius" "6) Turn Radius (bank-aware physics)"
      [ fld "tasKt" "TAS (kt)";
        Field "bankDeg" "Bank Angle (°)" (Some "30") false ]
      turnRadius_compute
      [ Output "rNM" "Turn Radius (NM)" ]
      None;
    Calc "leadRadial" "7) Lead Radial (deg)"
      [ fld "rNM" "Turn Radius r (NM)";
        fld "arcingDME" "Arcing DME (NM)";
        fld "interceptRadial" "Intercept Radial (deg)" ]
      leadRadial_compute
      [ Output "leadDegMinus" "Lead Radial (−) deg";
        Output "leadDegPlus" "Lead Radial (+) deg" ]
      None;
    Calc "leadDME" "8) Lead DME (NM)"
      [ fld "arcingDME" "Arcing DME (NM)";
        fld "rNM" "Turn Radius r (NM)" ]
      leadDME_compute
      [ Output "inbound" "Lead DME inbound (NM)";
        Output "outbound" "Lead DME outbound (NM)" ]
      None;
    Calc "arcDistance" "9) Arcing Distance (NM)"
      [ fld "startRadial" "Starting Radial (deg)";
        fld "endRadial" "Ending Radial (deg)";
        fld "arcingDME" "Arcing DME (NM)" ]
      arcDistance_compute
      [ Output "arcNM" "Arcing Distance (NM)" ]
      None;
    Calc "turningDistance" "10) Turning Distance for N°"
      [ fld "degrees" "Turn Amount (deg)";
        fld "rNM" "Turn Radius r (NM)" ]
      turningDistance_compute
      [ Output "turnDistNM" "Turning Distance (NM)" ]
      None;
    Calc "loss90" "11) Distance Lost to a 90° Turn"
      [ fld "rNM" "Turn Radius r (NM)" ]
      loss90_compute
      [ Output "lossNM" "Distance Lost (NM)" ]
      None;
    Calc "climbDescend" "12) Distance to Climb/Descend (NM)"
      [ fld "altitudeToClimbFt" "Δ Altitude (ft)";
        fld "climbGradientFtPerNM" "Climb/Descent Gradient (ft/NM)" ]
      climbDescend_compute
      [ Output "nm" "Distance (NM)" ]
      None;
    Calc "vdp" "13) VDP (NM from Threshold)"
      [ fld "hatFt" "HAT (ft)";
        fld "slopeDeg" "Glideslope/VDA (deg)" ]
      vdp_compute
      [ Output "vdpNM" "VDP (NM)";
        Output "ftPerNM" "Slope (ft/NM)" ]
      None ].

End Catalogue.

End AppCalcs.

(** ** Sequences of events *)

(** The store after a sequence of events, the oldest first. *)
Definition run (evs : list event) (values : store) : store :=
  fold_left handle evs values.

(** ** Vocabulary of the further properties *)

(** A string of white space only. *)
Fixpoint all_white (s : string) : bool :=
  match s with
  | String c r => is_white c && all_white r
  | EmptyString => true
  end.

(** The head of a string is neither white space nor a sign. *)
Definition unsigned_head (s : string) : bool :=
  match s with
  | EmptyString => true
  | String c _ => negb (is_white c || Ascii.eqb c "+" || Ascii.eqb c "-")
  end.

(** The head of a string does not continue a run of digits: it is not a
    digit, a dot or an exponent mark. *)
Definition ends_numeral (s : string) : bool :=
  match s with
  | EmptyString => true
  | String c _ =>
      match digit_of c with
      | Some _ => false
      | None => negb (Ascii.eqb c "." || Ascii.eqb c "e" || Ascii.eqb c "E")
      end
  end.

(** The decimal numeral of a natural number, without leading zeros, as the
    Standard Library prints it: "0", "7", "2000". *)
Definition numeral (n : N) : string :=
  DecimalString.NilZero.string_of_uint (N.to_uint n).

(** The value of a sequence of decimal digits read on top of [acc]. *)
Fixpoint uint_value (d : Decimal.uint) (acc : Z) : Z :=
  match d with
  | Decimal.Nil => acc
  | Decimal.D0 l => uint_value l (10 * acc)
  | Decimal.D1 l => uint_value l (10 * acc + 1)
  | Decimal.D2 l => uint_value l (10 * acc + 2)
  | Decimal.D3 l => uint_value l (10 * acc + 3)
  | Decimal.D4 l => uint_value l (10 * acc + 4)
  | Decimal.D5 l => uint_value l (10 * acc + 5)
  | Decimal.D6 l => uint_value l (10 * acc + 6)
  | Decimal.D7 l => uint_value l (10 * acc + 7)
  | Decimal.D8 l => uint_value l (10 * acc + 8)
  | Decimal.D9 l => uint_value l (10 * acc + 9)
  end.

(** The head of a string does not continue a fraction: it is not a digit
    or an exponent mark. *)
Definition ends_fraction (s : string) : bool :=
  match s with
  | EmptyString => true
  | String c _ =>
      match digit_of c with
      | Some _ => false
      | None => negb (Ascii.eqb c "e" || Ascii.eqb c "E")
      end
  end.

(** An output that is a finite Number or [null]: neither NaN nor an
    infinity. *)
Definition number_or_null (r : result) : bool :=
  match r with
  | Some x => finite x
  | None => true
  end.

(** An output that is not NaN. *)
Definition not_nan (r : result) : bool :=
  match r with
  | Some x => negb (is_nan x)
  | None => true
  end.

(** No property of the object a [compute] returned is NaN. *)
Abbreviation no_nan out :=
  (Forall (fun kr : string * result => not_nan (snd kr) = true) out).

(** Every property of the object a [compute] returned is a finite Number
    or [null]. *)
Abbreviation all_finite out :=
  (Forall (fun kr : string * result => number_or_null (snd kr) = true) out).

(** The text under key [k] parses to a Number smaller than [2 ^ 480] in
    magnitude (about 3e144). *)
Abbreviation modest v k := (below 480 (num (toNum (prop v k) fallback0)) = true).

(** A Number as rounding returns it: its exponent is at most
    [emax - prec], as [binary_round_aux] checks before it returns a finite
    Number. *)
Definition rounded (x : float) : bool :=
  match x with
  | S754_finite _ _ e => e <=? emax - prec
  | _ => true
  end.

(** A string of decimal digits only. *)
Fixpoint all_digits (s : string) : bool :=
  match s with
  | String c r =>
      match digit_of c with
      | Some _ => all_digits r
      | None => false
      end
  | EmptyString => true
  end.

(** The value of a string of digits read on top of [acc]. *)
Fixpoint digits_value (acc : Z) (s : string) : Z :=
  match s with
  | String c r =>
      match digit_of c with
      | Some d => digits_value (10 * acc + d) r
      | None => acc
      end
  | EmptyString => acc
  end.

(** ** What the screen shows *)

Section Display.

(** [Number::toString], the text of [String(x)], is left to the engine:
    the display is read for an arbitrary one.  [toFixed] falls back to it
    for a Number that is not finite, or is 1e21 or more in magnitude. *)
Variable Number_toString : float -> string.

(** The real value of [x] is below zero. *)
Definition negative (x : float) : bool :=
  match x with
  | S754_finite s _ _ => s
  | _ => false
  end.

(** [10 ^ 21 <= |x|], exactly, for [|x| = m * 2 ^ e]. *)
Definition at_least_1e21 (x : float) : bool :=
  match x with
  | S754_finite _ m e =>
      if 0 <=? e then 10 ^ 21 <=? Zpos m * 2 ^ e
      else 10 ^ 21 * 2 ^ (- e) <=? Zpos m
  | _ => false
  end.

(** The integer [n] for which [n / 1000 - |x|] is as close to zero as
    possible, the larger one when there are two: the floor of
    [|x| * 1000 + 1/2]. *)
Definition thousandths (x : float) : Z :=
  match x with
  | S754_finite _ m e =>
      if 0 <=? e then Zpos m * 2 ^ e * 1000
      else (2 * (Zpos m * 1000) + 2 ^ (- e)) / (2 * 2 ^ (- e))
  | _ => 0
  end.

(** The digits of [n] with the dot before the last three: the digits of
    [n] without leading zeros ("0" for 0), padded with zeros on the left to
    four digits when they are three or fewer, then split into the first
    [k - 3] and the other 3. *)
Definition fixed_digits (n : Z) : string :=
  let m := numeral (Z.to_N n) in
  let k := String.length m in
  let '(m, k) :=
    if (k <=? 3)%nat then (zeros (3 + 1 - k) ++ m, (3 + 1)%nat) else (m, k) in
  let a := String.substring 0 (k - 3) m in
  let b := String.substring (k - 3) 3 m in
  a ++ "." ++ b.

(** [x.toFixed(3)] *)
Definition toFixed3 (x : float) : string :=
  if negb (finite x) then Number_toString x
  else
    let s := if negative x then "-" else "" in
    let m :=
      if at_least_1e21 x then Number_toString (SFabs x)
      else fixed_digits (thousandths x) in
    s ++ m.

(** The text of an output pill:
    [Number.isFinite(out[o.key]) ? out[o.key].toFixed(3) : '—'], where
    [out[o.key]] is [undefined] when the object has no such property. *)
Definition pill_text (out : outputs_of) (o : output) : string :=
  match out_prop out (out_key o) with
  | Some r => if Number_isFinite r then toFixed3 (num r) else "—"
  | None => "—"
  end.

(** What a calculator section shows: its title, each field's label with
    the text in its input, the equation when there is one, and each
    output's label with the text in its pill. *)
Record section_view : Type := SectionView {
  sv_title : string;
  sv_inputs : list (string * string);
  sv_equation : option string;
  sv_outputs : list (string * string)
}.

(** [calc.equation && <Equation>...]: nothing for a missing or empty
    equation. *)
Definition shown_equation (c : calc) : option string :=
  match equation c with
  | Some EmptyString | None => None
  | Some s => Some s
  end.

Definition section_of (c : calc) (values : store) : section_view :=
  let out := compute c values in
  SectionView (title c)
    (map (fun f => (label f, field_text values f)) (fields c))
    (shown_equation c)
    (map (fun o => (out_label o, pill_text out o)) (outputs c)).

End Display.

(** * Properties *)

(** ** The numbers of the source, bit for bit *)

Example Math_PI_literal : dec 3141592653589793 (-15) = Math_PI.
Proof. reflexivity. Qed.

Example one_half : dec 5 (-1) = S754_finite false 4503599627370496 (-53).
Proof. reflexivity. Qed.

Example one_tenth : dec 1 (-1) = S754_finite false 7205759403792794 (-56).
Proof. reflexivity. Qed.

Example tenth_plus_fifth :
  add (dec 1 (-1)) (dec 2 (-1)) = dec 30000000000000004 (-17).
Proof. reflexivity. Qed.

Example largest_double :
  parseFloat "1.7976931348623157e308" = S754_finite false 9007199254740991 971
  /\ parseFloat "1.7976931348623159e308" = S754_infinity false.
Proof. split; vm_compute; reflexivity. Qed.

Example smallest_double :
  parseFloat "5e-324" = S754_finite false 1 (-1074)
  /\ parseFloat "2e-324" = S754_zero false.
Proof. split; vm_compute; reflexivity. Qed.

Example parseFloat_samples :
  parseFloat "  -3.5e2x" = SFopp (int 350)
  /\ parseFloat ".5" = dec 5 (-1)
  /\ parseFloat "5." = int 5
  /\ parseFloat "1.e5" = int 100000
  /\ parseFloat "1e+" = int 1
  /\ parseFloat "0x10" = int 0
  /\ parseFloat "-0" = S754_zero true
  /\ parseFloat "." = NaN
  /\ parseFloat "- 5" = NaN
  /\ parseFloat "Infinityx" = S754_infinity false.
Proof. repeat split; vm_compute; reflexivity. Qed.

(** ** The parser's result *)

Lemma toNum_cases (v : value) (fb : result) :
  toNum v fb = fb
  \/ exists x, toNum v fb = Some x /\ finite x = true
               /\ x = parse_value (nullish v (Str "")).
Proof.
  unfold toNum.
  destruct (finite (parse_value (nullish v (Str "")))) eqn:E; eauto.
Qed.

Lemma toNum_default_finite (v : value) :
  exists x, toNum v fallback0 = Some x /\ finite x = true.
Proof.
  destruct (toNum_cases v fallback0) as [-> | (x & -> & Hx & _)]; eauto.
Qed.

Lemma prop_agree (v1 v2 : store) (k : string) :
  v1 !! k = v2 !! k -> prop v1 k = prop v2 k.
Proof. unfold prop. now intros ->. Qed.

Lemma prop_some (v : store) (k s : string) :
  v !! k = Some s -> prop v k = Str s.
Proof. unfold prop. now intros ->. Qed.

Lemma prop_none (v : store) (k : string) :
  v !! k = None -> prop v k = Undefined.
Proof. unfold prop. now intros ->. Qed.

(** The single-file [toNum] and the screen's agree on every argument. *)
Lemma App_toNum_same (v : value) (fb : result) : App.toNum v fb = toNum v fb.
Proof. destruct v; reflexivity. Qed.

(** ** The parser on strings *)

Ltac each_char c :=
  let b0 := fresh in let b1 := fresh in let b2 := fresh in let b3 := fresh in
  let b4 := fresh in let b5 := fresh in let b6 := fresh in let b7 := fresh in
  destruct c as [b0 b1 b2 b3 b4 b5 b6 b7];
  destruct b0, b1, b2, b3, b4, b5, b6, b7.

(** No literal begins with a character that is not a numeric start. *)
Lemma signed_literal_none (s : string) :
  match trim_start s with
  | EmptyString => True
  | String c _ => numeric_start c = false
  end ->
  signed_literal s = None.
Proof.
  unfold signed_literal. destruct (trim_start s) as [|c r]; [reflexivity|].
  intros Hc. each_char c; try discriminate Hc; reflexivity.
Qed.

Lemma remove_commas_app (s1 s2 : string) :
  remove_commas (s1 ++ s2) = remove_commas s1 ++ remove_commas s2.
Proof.
  induction s1 as [|c s1 IH]; [reflexivity|].
  change (String c s1 ++ s2) with (String c (s1 ++ s2)).
  cbn [remove_commas]. rewrite IH. now destruct (Ascii.eqb c ",").
Qed.

Lemma read_digits_count (s : string) (acc cnt : Z) :
  cnt <= snd (fst (read_digits acc cnt s)).
Proof.
  revert acc cnt. induction s as [|c s IH]; intros acc cnt; cbn [read_digits];
    [cbn; lia|].
  destruct (digit_of c) as [d|]; [|cbn; lia].
  specialize (IH (10 * acc + d) (cnt + 1)). lia.
Qed.

(** A string that begins with a digit has a decimal literal. *)
Lemma unsigned_literal_digit (c : ascii) (r : string) :
  digit_of c <> None -> is_decimal (unsigned_literal (String c r)) = true.
Proof.
  intros Hc. unfold unsigned_literal.
  assert (Hp : String.prefix "Infinity" (String c r) = false).
  { cbn [String.prefix]. destruct (ascii_dec "I" c) as [<- |]; [|reflexivity].
    now elim Hc. }
  rewrite Hp.
  assert (Hn : 1 <= snd (fst (read_digits 0 0 (String c r)))).
  { cbn [read_digits]. destruct (digit_of c) as [d|]; [|now elim Hc].
    apply read_digits_count. }
  destruct (read_digits 0 0 (String c r)) as [[i ni] r1]. cbn [fst snd] in Hn.
  assert (Hni : (ni =? 0) = false) by (apply Z.eqb_neq; lia).
  destruct r1 as [|c1 r2]; [now rewrite Hni|].
  each_char c1; try (now rewrite Hni).
  destruct (read_digits i 0 r2) as [[m nf] r3]. now rewrite Hni.
Qed.

Lemma signed_literal_digit (c : ascii) (r : string) :
  digit_of c <> None ->
  exists m e, signed_literal (String c r) = Some (false, LitDecimal m e).
Proof.
  intros Hc. unfold signed_literal.
  assert (Ht : trim_start (String c r) = String c r).
  { cbn [trim_start]. each_char c; try reflexivity; now elim Hc. }
  rewrite Ht.
  pose proof (unsigned_literal_digit c r Hc) as Hu.
  assert (Hs : match String c r with
               | String "+" r0 => (false, r0)
               | String "-" r0 => (true, r0)
               | _ => (false, String c r)
               end = (false, String c r)).
  { each_char c; try reflexivity; now elim Hc. }
  rewrite Hs.
  destruct (unsigned_literal (String c r)) as [[|m e]|]; try discriminate Hu.
  eauto.
Qed.

Lemma toNum_no_literal (s : string) (fb : result) :
  signed_literal (remove_commas s) = None -> toNum (Str s) fb = fb.
Proof.
  intros H. unfold toNum. cbn [nullish parse_value]. unfold parseFloat.
  now rewrite H.
Qed.

(** C3, as the code has it: [toNum] is total; it returns the fallback for
    undefined, for the empty string, for every string whose comma-stripped
    text does not begin (after white space) with a digit, a sign, a dot or
    [I], and whenever the comma-stripped parse is not finite; in every other
    case it returns the finite Number parsed, which is [parseFloat] of the
    comma-stripped text, the value of the decimal literal at its head: so a
    comma-grouped number such as "2,000" gives 2000, "-3.5" gives -3.5 and
    "12abc" gives 12, not the fallback.  The default fallback is 0. *)
Theorem toNum_fallback (fb : result) :
  (toNum Undefined fb = fb /\ toNum Null fb = fb /\ toNum (Str "") fb = fb)
  /\ (forall s : string,
         match trim_start (remove_commas s) with
         | EmptyString => True
         | String c _ => numeric_start c = false
         end ->
         toNum (Str s) fb = fb)
  /\ (forall v : value,
         finite (parse_value (nullish v (Str ""))) = false -> toNum v fb = fb)
  /\ (forall v : value,
         toNum v fb = fb
         \/ exists x, toNum v fb = Some x /\ finite x = true
                      /\ x = parse_value (nullish v (Str "")))
  /\ (forall v : value,
         finite (parse_value (nullish v (Str ""))) = true ->
         toNum v fb = Some (parse_value (nullish v (Str ""))))
  /\ (forall s : string,
         finite (parseFloat (remove_commas s)) = true ->
         toNum (Str s) fb = Some (parseFloat (remove_commas s)))
  /\ (forall (s : string) (neg : bool) (m e : Z),
         signed_literal (remove_commas s) = Some (neg, LitDecimal m e) ->
         finite (of_decimal neg m e) = true ->
         toNum (Str s) fb = Some (of_decimal neg m e))
  /\ (toNum (Str "abc") fb = fb /\ toNum (Str "NaN") fb = fb
      /\ toNum (Str "Infinity") fb = fb /\ toNum (Str "-Infinity") fb = fb)
  /\ toNum (Str "2,000") fb = Some (int 2000)
  /\ toNum (Str "-3.5") fb = Some (of_decimal true 35 (-1))
  /\ toNum (Str "12abc") fb = Some (int 12)
  /\ Some (of_decimal true 35 (-1)) <> Some (int 2000)
  /\ fallback0 = Some pos_zero.
Proof.
  split; [now repeat split|].
  split; [intros s Hs; now apply toNum_no_literal, signed_literal_none|].
  split; [intros v Hv; unfold toNum; now rewrite Hv|].
  split.
  { intros v. destruct (toNum_cases v fb) as [H | (x & H & Hx & Ex)]; eauto. }
  split; [intros v Hv; unfold toNum; now rewrite Hv|].
  split.
  { intros s Hs. unfold toNum. cbn [nullish parse_value]. now rewrite Hs. }
  split.
  { intros s neg m e Hl Hf. unfold toNum. cbn [nullish parse_value].
    unfold parseFloat. now rewrite Hl, Hf. }
  split; [now repeat split|].
  repeat split; try reflexivity. discriminate.
Qed.

Lemma toNum_fallback_witness :
  toNum (Str "  n/a") fallback0 = fallback0 /\ toNum (Str "1e999") None = None.
Proof.
  destruct (toNum_fallback fallback0) as (_ & H & _).
  destruct (toNum_fallback None) as (_ & _ & H' & _).
  split; [apply H | apply H']; reflexivity.
Defined.

(** C3 as stated fails: the comma-grouped number "2,000" and the
    non-numeric string "12abc" are parsed (2000 and 12) rather than replaced
    by the fallback 0. *)
Lemma toNum_parses_grouped_number :
  toNum (Str "2,000") fallback0 = Some (int 2000)
  /\ toNum (Str "12abc") fallback0 = Some (int 12)
  /\ Some (int 2000) <> fallback0 /\ Some (int 12) <> fallback0.
Proof. repeat split; discriminate. Qed.

(** C10, as the code has it: a comma is dropped wherever it stands, and a
    string that begins with a digit is read up to the end of its longest
    numeric prefix, so "12abc" and "1,2" both give 12.  The fallback is
    returned only when the comma-stripped string has no numeric prefix or
    the value of that prefix is not finite (or is the fallback itself). *)
Theorem toNum_commas_and_prefix (fb : result) :
  (forall s1 s2 : string,
      toNum (Str (s1 ++ "," ++ s2)) fb = toNum (Str (s1 ++ s2)) fb)
  /\ toNum (Str "12abc") fb = Some (int 12)
  /\ toNum (Str "1,2") fb = Some (int 12)
  /\ int 12 <> dec 12 (-1)
  /\ (forall (c : ascii) (r : string),
         digit_of c <> None ->
         exists m e,
           signed_literal (remove_commas (String c r))
           = Some (false, LitDecimal m e)
           /\ toNum (Str (String c r)) fb
              = if finite (dec m e) then Some (dec m e) else fb)
  /\ (forall s : string,
         toNum (Str s) fb = fb ->
         signed_literal (remove_commas s) = None
         \/ finite (parseFloat (remove_commas s)) = false
         \/ fb = Some (parseFloat (remove_commas s))).
Proof.
  split; [|split; [reflexivity|split; [reflexivity|split; [discriminate|split]]]].
  - intros s1 s2. unfold toNum. cbn [nullish parse_value].
    now rewrite !remove_commas_app.
  - intros c r Hc.
    assert (Hr : remove_commas (String c r) = String c (remove_commas r)).
    { cbn [remove_commas]. destruct (Ascii.eqb_spec c ",") as [-> |]; [|reflexivity].
      now elim Hc. }
    destruct (signed_literal_digit c (remove_commas r) Hc) as (m & e & Hl).
    exists m, e. rewrite Hr. split; [exact Hl|].
    unfold toNum. cbn [nullish parse_value]. unfold parseFloat.
    now rewrite Hr, Hl.
  - intros s. unfold toNum. cbn [nullish parse_value].
    destruct (finite (parseFloat (remove_commas s))); auto.
Qed.

Lemma toNum_commas_and_prefix_witness :
  exists m e,
    signed_literal (remove_commas "7 knots") = Some (false, LitDecimal m e)
    /\ toNum (Str "7 knots") None = if finite (dec m e) then Some (dec m e) else None.
Proof.
  destruct (toNum_commas_and_prefix None) as (_ & _ & _ & _ & H & _).
  apply (H "7"%char " knots"). discriminate.
Defined.

(** C10 as stated fails: "1e999" has the numeric prefix 1e999, and yet the
    fallback is returned, since its value is not finite. *)
Lemma numeric_prefix_can_give_fallback :
  signed_literal (remove_commas "1e999") = Some (false, LitDecimal 1 999)
  /\ toNum (Str "1e999") None = None
  /\ ~ (forall (s : string) (fb : result),
           toNum (Str s) fb = fb -> signed_literal (remove_commas s) = None).
Proof.
  split; [reflexivity|]. split; [reflexivity|].
  intros H. specialize (H "1e999" None eq_refl). discriminate H.
Qed.

(** ** Rounding never yields NaN *)

Lemma iter_pos_invariant {A : Type} (P : A -> Prop) (f : A -> A) :
  (forall x, P x -> P (f x)) ->
  forall (p : positive) (x : A), P x -> P (SpecFloat.iter_pos f p x).
Proof.
  intros Hf. induction p as [p IH | p IH |]; intros x Hx; cbn [SpecFloat.iter_pos]; auto.
Qed.

Lemma shr_1_nonneg (mrs : shr_record) :
  0 <= shr_m mrs -> 0 <= shr_m (shr_1 mrs).
Proof.
  destruct mrs as [m r s]. cbn [shr_m]. intros Hm.
  destruct m as [|p|p]; [cbn; lia | | lia].
  destruct p; cbn; lia.
Qed.

Lemma shr_nonneg (mrs : shr_record) (e n : Z) :
  0 <= shr_m mrs -> 0 <= shr_m (fst (shr mrs e n)).
Proof.
  intros Hm. unfold shr. destruct n as [|p|p]; cbn [fst]; auto.
  apply (iter_pos_invariant (fun x => 0 <= shr_m x)); auto using shr_1_nonneg.
Qed.

Lemma shr_record_of_loc_m (m : Z) (l : location) :
  shr_m (shr_record_of_loc m l) = m.
Proof. destruct l as [|[]]; reflexivity. Qed.

Lemma shr_fexp_nonneg (m e : Z) (l : location) :
  0 <= m -> 0 <= shr_m (fst (shr_fexp prec emax m e l)).
Proof.
  intros Hm. unfold shr_fexp. apply shr_nonneg. now rewrite shr_record_of_loc_m.
Qed.

Lemma round_nearest_even_nonneg (m : Z) (l : location) :
  0 <= m -> 0 <= round_nearest_even m l.
Proof.
  intros Hm. unfold round_nearest_even.
  destruct l as [|[]]; try destruct (Z.even m); lia.
Qed.

Lemma binary_round_aux_not_nan (sx : bool) (mx ex : Z) (lx : location) :
  0 <= mx -> is_nan (binary_round_aux prec emax sx mx ex lx) = false.
Proof.
  intros Hm. unfold binary_round_aux.
  pose proof (shr_fexp_nonneg mx ex lx Hm) as H1.
  destruct (shr_fexp prec emax mx ex lx) as [mrs' e']. cbn [fst] in H1.
  pose proof (shr_fexp_nonneg _ e' loc_Exact
                (round_nearest_even_nonneg _ (loc_of_shr_record mrs') H1)) as H2.
  destruct (shr_fexp prec emax _ e' loc_Exact) as [mrs'' e'']. cbn [fst] in H2.
  destruct (shr_m mrs'') as [|p|p]; [reflexivity | | lia].
  now destruct (e'' <=? _).
Qed.

Lemma binary_round_not_nan (sx : bool) (mx : positive) (ex : Z) :
  is_nan (binary_round prec emax sx mx ex) = false.
Proof.
  unfold binary_round. destruct (shl_align _ _ _) as [mz ez].
  apply binary_round_aux_not_nan. lia.
Qed.

Lemma binary_normalize_not_nan (m e : Z) (sz : bool) :
  is_nan (binary_normalize prec emax m e sz) = false.
Proof.
  destruct m; cbn [binary_normalize]; auto using binary_round_not_nan.
Qed.

Lemma mul_not_nan (x y : float) :
  finite x = true -> finite y = true -> is_nan (mul x y) = false.
Proof.
  destruct x, y; try discriminate; intros _ _; try reflexivity.
  apply binary_round_aux_not_nan. lia.
Qed.

Lemma add_not_nan (x y : float) :
  finite x = true -> is_nan y = false -> is_nan (add x y) = false.
Proof.
  destruct x, y; try discriminate; intros _ _; try reflexivity.
  - now destruct s, s0.
  - apply binary_normalize_not_nan.
Qed.

Lemma sub_not_nan (x y : float) :
  finite x = true -> is_nan y = false -> is_nan (sub x y) = false.
Proof.
  destruct x, y; try discriminate; intros _ _; try reflexivity.
  - now destruct s, s0.
  - apply binary_normalize_not_nan.
Qed.

Lemma div_core_nonneg (m1 : positive) (e1 : Z) (m2 : positive) (e2 : Z) :
  0 <= fst (fst (SFdiv_core_binary prec emax (Zpos m1) e1 (Zpos m2) e2)).
Proof.
  unfold SFdiv_core_binary.
  set (s := _ - _ - _).
  set (m' := match s with Z0 => _ | Zpos _ => _ | Zneg _ => _ end).
  assert (Hm' : 0 <= m').
  { subst m'. destruct s; try lia. apply Z.shiftl_nonneg. lia. }
  pose proof (Z.div_eucl_eq m' (Zpos m2) ltac:(lia)) as Heq.
  pose proof (Z_div_mod m' (Zpos m2) ltac:(lia)) as Hdm.
  destruct (Z.div_eucl m' (Z.pos m2)) as [q r]. cbn [fst].
  destruct Hdm as [_ Hr]. nia.
Qed.

Lemma div_not_nan (x y : float) :
  finite x = true -> truthy y = true -> is_nan (div x y) = false.
Proof.
  destruct x, y; try discriminate; intros _ _; try reflexivity.
  unfold div, SFdiv.
  pose proof (div_core_nonneg m e m0 e0) as Hq.
  destruct (SFdiv_core_binary _ _ _ _ _ _) as [[mz ez] lz]. cbn [fst] in Hq.
  now apply binary_round_aux_not_nan.
Qed.

(** ** Rounding keeps magnitudes *)

Lemma digits2_pos_bounds (p : positive) :
  2 ^ (Zpos (digits2_pos p) - 1) <= Zpos p < 2 ^ Zpos (digits2_pos p).
Proof.
  induction p as [p IH | p IH |]; cbn [digits2_pos];
    [ | | cbn; lia ];
    rewrite Pos2Z.inj_succ;
    replace (Z.succ (Zpos (digits2_pos p)) - 1)
      with (Z.succ (Zpos (digits2_pos p) - 1)) by lia;
    rewrite !Z.pow_succ_r by lia; lia.
Qed.

Lemma Zdigits2_nonneg (m : Z) : 0 <= Zdigits2 m.
Proof. destruct m; cbn; lia. Qed.

Lemma Zdigits2_le (m d : Z) :
  0 <= m -> 0 <= d -> m < 2 ^ d -> Zdigits2 m <= d.
Proof.
  intros Hm Hd Hlt. destruct m as [|p|p]; [cbn; lia | | lia].
  cbn [Zdigits2]. pose proof (digits2_pos_bounds p) as [Hlo _].
  assert (H : 2 ^ (Zpos (digits2_pos p) - 1) < 2 ^ d) by lia.
  apply Z.pow_lt_mono_r_iff in H; lia.
Qed.

Lemma Zdigits2_lt_pow (m : Z) : 0 <= m -> m < 2 ^ Zdigits2 m.
Proof.
  intros Hm. destruct m as [|p|p]; [cbn; lia | | lia].
  apply digits2_pos_bounds.
Qed.

Lemma iter_pos_indexed {A : Type} (P : Z -> A -> Prop) (f : A -> A) :
  (forall k x, 0 <= k -> P k x -> P (k + 1) (f x)) ->
  forall (p : positive) (k : Z) (x : A),
    0 <= k -> P k x -> P (k + Zpos p) (SpecFloat.iter_pos f p x).
Proof.
  intros Hf. induction p as [p IH | p IH |]; intros k x Hk Hx;
    cbn [SpecFloat.iter_pos].
  - replace (k + Zpos p~1) with (k + 1 + Zpos p + Zpos p) by lia.
    apply IH; [lia|]. apply IH; [lia|]. now apply Hf.
  - replace (k + Zpos p~0) with (k + Zpos p + Zpos p) by lia.
    apply IH; [lia|]. now apply IH.
  - now apply Hf.
Qed.

Lemma shr_1_div2 (mrs : shr_record) :
  0 <= shr_m mrs -> shr_m (shr_1 mrs) = Z.div2 (shr_m mrs).
Proof.
  destruct mrs as [m r s]. cbn [shr_m]. intros Hm.
  destruct m as [|p|p]; [reflexivity | | lia].
  now destruct p.
Qed.

Lemma shr_iter_shiftr (m : Z) (l : location) (p : positive) :
  0 <= m ->
  shr_m (SpecFloat.iter_pos shr_1 p (shr_record_of_loc m l)) = Z.shiftr m (Zpos p).
Proof.
  intros Hm.
  assert (Hstep : forall k x, 0 <= k -> shr_m x = Z.shiftr m k ->
                              shr_m (shr_1 x) = Z.shiftr m (k + 1)).
  { intros k x Hk Hx.
    rewrite shr_1_div2 by (rewrite Hx; now apply Z.shiftr_nonneg).
    rewrite Hx, Z.div2_spec, Z.shiftr_shiftr by lia. reflexivity. }
  apply (iter_pos_indexed (fun k x => shr_m x = Z.shiftr m k) shr_1 Hstep
           p 0 (shr_record_of_loc m l)); [lia|].
  destruct l as [|[]]; reflexivity.
Qed.

(** One right shift to the format's exponent: what it leaves of [m]. *)
Lemma shr_fexp_bounds (m e : Z) (l : location) (b : Z) :
  0 <= m -> e <= emax - prec -> Zdigits2 m + e <= b -> 0 <= b <= emax ->
  let '(mrs, e') := shr_fexp prec emax m e l in
  0 <= shr_m mrs /\ e' <= emax - prec /\ Zdigits2 (shr_m mrs) + e' <= b.
Proof.
  intros Hm He Hb Hbe. unfold shr_fexp, shr.
  set (n := fexp prec emax (Zdigits2 m + e) - e).
  assert (Hn : e + n <= emax - prec).
  { subst n. unfold fexp, SpecFloat.emin, prec, emax in *. lia. }
  destruct n as [|p|p] eqn:En.
  - destruct l as [|[]]; cbn [shr_record_of_loc shr_m]; lia.
  - rewrite shr_iter_shiftr by lia.
    split; [apply Z.shiftr_nonneg; lia|]. split; [lia|].
    rewrite Z.shiftr_div_pow2 by lia.
    pose proof (Zdigits2_nonneg m) as Hd0.
    pose proof (Zdigits2_lt_pow m Hm) as Hlt.
    assert (Hq : 0 <= m / 2 ^ Zpos p) by (apply Z.div_pos; lia).
    destruct (Z_le_gt_dec (Zpos p) (Zdigits2 m)) as [Hle | Hgt].
    + assert (Zdigits2 (m / 2 ^ Zpos p) <= Zdigits2 m - Zpos p); [|lia].
      apply Zdigits2_le; [lia | lia |].
      apply Z.div_lt_upper_bound; [lia|].
      rewrite <- Z.pow_add_r by lia.
      now replace (Zpos p + (Zdigits2 m - Zpos p)) with (Zdigits2 m) by lia.
    + assert (Hz : m / 2 ^ Zpos p = 0).
      { apply Z.div_small. split; [lia|].
        eapply Z.lt_le_trans; [exact Hlt|].
        apply Z.pow_le_mono_r; lia. }
      rewrite Hz. cbn [Zdigits2].
      unfold fexp, SpecFloat.emin, prec, emax in *. lia.
  - destruct l as [|[]]; cbn [shr_record_of_loc shr_m]; lia.
Qed.

Lemma round_nearest_even_bounds (m : Z) (l : location) :
  0 <= m ->
  0 <= round_nearest_even m l
  /\ Zdigits2 (round_nearest_even m l) <= Zdigits2 m + 1.
Proof.
  intros Hm.
  assert (Hr : m <= round_nearest_even m l <= m + 1).
  { unfold round_nearest_even. destruct l as [|[]]; try destruct (Z.even m); lia. }
  split; [lia|].
  pose proof (Zdigits2_nonneg m) as Hd0.
  pose proof (Zdigits2_lt_pow m Hm) as Hlt.
  apply Zdigits2_le; [lia | lia |].
  rewrite Z.pow_add_r by lia. cbn. lia.
Qed.

Lemma below_finite (b : Z) (x : float) : below b x = true -> finite x = true.
Proof. now destruct x. Qed.

Lemma below_mono (b b' : Z) (x : float) :
  b <= b' -> below b x = true -> below b' x = true.
Proof.
  intros Hb. destruct x; cbn [below]; auto.
  intros H%Z.leb_le. apply Z.leb_le. lia.
Qed.


(** Rounding a magnitude below [2 ^ b] gives one below [2 ^ (b + 1)]. *)
Lemma binary_round_aux_below (sx : bool) (mx ex : Z) (lx : location) (b : Z) :
  0 <= mx -> ex <= emax - prec -> Zdigits2 mx + ex <= b -> 0 <= b <= emax - 1 ->
  below (b + 1) (binary_round_aux prec emax sx mx ex lx) = true.
Proof.
  intros Hm He Hb Hbb. unfold binary_round_aux.
  pose proof (shr_fexp_bounds mx ex lx b Hm He Hb ltac:(unfold emax in *; lia)) as H1.
  destruct (shr_fexp prec emax mx ex lx) as [mrs' e'].
  destruct H1 as (H1m & H1e & H1b).
  pose proof (round_nearest_even_bounds (shr_m mrs') (loc_of_shr_record mrs') H1m)
    as [H2m H2d].
  pose proof (shr_fexp_bounds _ e' loc_Exact (b + 1) H2m H1e ltac:(lia)
                ltac:(unfold emax in *; lia)) as H3.
  destruct (shr_fexp prec emax _ e' loc_Exact) as [mrs'' e''].
  destruct H3 as (H3m & H3e & H3b).
  destruct (shr_m mrs'') as [|p|p]; [reflexivity | | lia].
  apply Z.leb_le in H3e. unfold emax, prec in *. rewrite H3e.
  cbn [below Zdigits2] in *. now apply Z.leb_le.
Qed.


Lemma shl_align_value (mx : positive) (ex ex' : Z) :
  ex' <= ex ->
  Zpos (fst (shl_align mx ex ex')) = Zpos mx * 2 ^ (ex - ex')
  /\ snd (shl_align mx ex ex') = ex'.
Proof.
  intros Hle. unfold shl_align.
  destruct (ex' - ex) as [|d|d] eqn:E; cbn [fst snd]; try lia.
  - replace (ex - ex') with 0 by lia. split; lia.
  - split; [|reflexivity]. replace (ex - ex') with (Zpos d) by lia.
    clear. induction d as [|d IH] using Pos.peano_ind.
    + cbn. lia.
    + rewrite Pos.iter_succ, Pos2Z.inj_succ, Z.pow_succ_r by lia.
      rewrite Pos2Z.inj_xO, IH. lia.
Qed.

(** Rounding a positive integer mantissa, as the sum and the product do. *)
Lemma binary_round_below (sx : bool) (mx : positive) (ex b : Z) :
  Zpos (digits2_pos mx) + ex <= b -> 0 <= b <= emax - 1 ->
  below (b + 1) (binary_round prec emax sx mx ex) = true.
Proof.
  intros Hb Hbb. unfold binary_round.
  set (ex' := fexp prec emax (Zpos (digits2_pos mx) + ex)).
  assert (He' : ex' <= emax - prec).
  { subst ex'. unfold fexp, SpecFloat.emin, prec, emax in *. lia. }
  destruct (Z_le_gt_dec ex' ex) as [Hle | Hgt].
  - destruct (shl_align_value mx ex ex' Hle) as [Hv Hs].
    destruct (shl_align mx ex ex') as [mz ez]. cbn [fst snd] in Hv, Hs. subst ez.
    apply binary_round_aux_below; [lia | exact He' | | exact Hbb].
    pose proof (digits2_pos_bounds mx) as [_ Hmx].
    assert (Zdigits2 (Zpos mz) <= Zpos (digits2_pos mx) + (ex - ex')); [|lia].
    apply Zdigits2_le; [lia | lia |].
    rewrite Hv, Z.pow_add_r by lia.
    assert (0 < 2 ^ (ex - ex')) by (apply Z.pow_pos_nonneg; lia). nia.
  - unfold shl_align.
    destruct (ex' - ex) as [|d|d] eqn:E; try lia.
    apply binary_round_aux_below; [lia | lia | exact Hb | exact Hbb].
Qed.

Lemma mul_below (x y : float) (bx by' : Z) :
  below bx x = true -> below by' y = true -> 0 <= bx + by' <= emax - prec + 2 ->
  below (bx + by' + 1) (mul x y) = true.
Proof.
  destruct x as [sx|sx| |sx mx ex], y as [sy|sy| |sy my ey];
    try discriminate; try reflexivity.
  cbn [below]. intros Hx%Z.leb_le Hy%Z.leb_le Hb.
  unfold mul, SFmul.
  pose proof (Pos2Z.is_pos (digits2_pos mx)).
  pose proof (Pos2Z.is_pos (digits2_pos my)).
  apply binary_round_aux_below; unfold emax, prec in *; [lia | lia | | lia].
  pose proof (digits2_pos_bounds mx) as [_ Hmx].
  pose proof (digits2_pos_bounds my) as [_ Hmy].
  assert (Zdigits2 (Zpos (mx * my))
          <= Zpos (digits2_pos mx) + Zpos (digits2_pos my)); [|lia].
  apply Zdigits2_le; [lia | lia |].
  rewrite Pos2Z.inj_mul, Z.pow_add_r by lia. nia.
Qed.

(** A quotient is below [2 ^ (b + 1)] when the dividend's binary magnitude
    exceeds the divisor's by less than [b]. *)
Lemma div_below (sx sy : bool) (m1 m2 : positive) (e1 e2 b : Z) :
  (Zpos (digits2_pos m1) + e1) - (Zpos (digits2_pos m2) + e2) + 1 <= b ->
  0 <= b <= emax - 1 ->
  below (b + 1) (div (S754_finite sx m1 e1) (S754_finite sy m2 e2)) = true.
Proof.
  intros HD Hb. unfold div, SFdiv, SFdiv_core_binary. cbn [Zdigits2].
  set (d1 := Zpos (digits2_pos m1)) in *. set (d2 := Zpos (digits2_pos m2)) in *.
  set (e' := Z.min (fexp prec emax (d1 + e1 - (d2 + e2))) (e1 - e2)).
  set (s := e1 - e2 - e').
  assert (He' : e' <= emax - prec).
  { subst e'. unfold fexp, SpecFloat.emin, prec, emax in *. lia. }
  assert (Hs : 0 <= s) by (subst s e'; lia).
  set (m' := match s with Z0 => _ | Zpos _ => _ | Zneg _ => _ end).
  assert (Hm' : m' = Zpos m1 * 2 ^ s).
  { subst m'. destruct s as [|p|p]; [lia | | lia].
    now rewrite Z.shiftl_mul_pow2 by lia. }
  pose proof (digits2_pos_bounds m1) as [_ H1]. fold d1 in H1.
  pose proof (digits2_pos_bounds m2) as [H2 _]. fold d2 in H2.
  pose proof (Z_div_mod m' (Zpos m2) ltac:(lia)) as Hdm.
  destruct (Z.div_eucl m' (Zpos m2)) as [q r]. destruct Hdm as [Hq Hr].
  assert (Hq0 : 0 <= q) by nia.
  assert (Hpow : 0 < 2 ^ (d2 - 1)) by (apply Z.pow_pos_nonneg; lia).
  assert (Hlt : q * 2 ^ (d2 - 1) < 2 ^ (d1 + s)).
  { rewrite Z.pow_add_r by lia. nia. }
  apply binary_round_aux_below; [exact Hq0 | exact He' | | exact Hb].
  destruct (Z_le_gt_dec 0 (d1 + s - d2 + 1)) as [Hk | Hk].
  - assert (Zdigits2 q <= d1 + s - d2 + 1); [|subst s; lia].
    apply Zdigits2_le; [lia | lia |].
    replace (d1 + s) with ((d1 + s - d2 + 1) + (d2 - 1)) in Hlt by lia.
    rewrite Z.pow_add_r in Hlt by lia. nia.
  - assert (Hq1 : q = 0).
    { assert (2 ^ (d1 + s) <= 2 ^ (d2 - 1)) by (apply Z.pow_le_mono_r; lia). nia. }
    subst q. cbn [Zdigits2]. subst e'. unfold fexp, SpecFloat.emin, prec, emax in *. lia.
Qed.

(** The sum or difference of two aligned mantissas. *)
Lemma binary_normalize_below (m e b : Z) :
  Z.abs m < 2 ^ (b - e) -> e <= b -> 0 <= b <= emax - 1 ->
  below (b + 1) (binary_normalize prec emax m e false) = true.
Proof.
  intros Hm He Hb.
  assert (Hd : forall p : positive, Zpos p < 2 ^ (b - e) ->
                                    Zpos (digits2_pos p) + e <= b).
  { intros p Hp.
    assert (Zdigits2 (Zpos p) <= b - e) by (apply Zdigits2_le; lia).
    cbn [Zdigits2] in *. lia. }
  destruct m as [|p|p]; cbn [binary_normalize]; [reflexivity| |];
    apply binary_round_below; auto; apply Hd; lia.
Qed.

Lemma aligned_bound (m : positive) (e ez b : Z) :
  ez <= e -> Zpos (digits2_pos m) + e <= b ->
  Zpos (fst (shl_align m e ez)) < 2 ^ (b - ez).
Proof.
  intros Hez Hb. destruct (shl_align_value m e ez Hez) as [-> _].
  pose proof (digits2_pos_bounds m) as [_ Hm].
  pose proof (Pos2Z.is_pos (digits2_pos m)).
  assert (2 ^ Zpos (digits2_pos m) * 2 ^ (e - ez) <= 2 ^ (b - ez)).
  { rewrite <- Z.pow_add_r by lia. apply Z.pow_le_mono_r; lia. }
  assert (0 < 2 ^ (e - ez)) by (apply Z.pow_pos_nonneg; lia). nia.
Qed.

Lemma add_sub_below (x y : float) (b : Z) :
  below b x = true -> below b y = true -> 0 <= b <= emax - 2 ->
  below (b + 2) (add x y) = true /\ below (b + 2) (sub x y) = true.
Proof.
  intros Hx Hy Hb.
  assert (Hx2 : below (b + 2) x = true) by (apply (below_mono b); [lia|exact Hx]).
  assert (Hy2 : below (b + 2) y = true) by (apply (below_mono b); [lia|exact Hy]).
  destruct x as [sx|sx| |sx mx ex], y as [sy|sy| |sy my ey];
    try discriminate; try (split; [exact Hx2 || exact Hy2 | exact Hx2 || exact Hy2]).
  - split; now destruct sx, sy.
  - clear Hx2 Hy2. cbn [below] in Hx, Hy.
    apply Z.leb_le in Hx. apply Z.leb_le in Hy.
    unfold add, sub, SFadd, SFsub.
    set (ez := Z.min ex ey).
    pose proof (aligned_bound mx ex ez b ltac:(subst ez; lia) Hx) as Ha.
    pose proof (aligned_bound my ey ez b ltac:(subst ez; lia) Hy) as Hb'.
    pose proof (Pos2Z.is_pos (digits2_pos mx)).
    assert (Hpow : 2 ^ (b + 1 - ez) = 2 * 2 ^ (b - ez)).
    { replace (b + 1 - ez) with (Z.succ (b - ez)) by lia.
      apply Z.pow_succ_r. subst ez. lia. }
    replace (b + 2) with (b + 1 + 1) by lia.
    split; apply binary_normalize_below;
      try (subst ez; unfold emax in *; lia);
      rewrite Hpow; destruct sx, sy; cbn [cond_Zopp]; lia.
Qed.

(** ** The catalogue *)

(** C5: the catalogue is a fixed sequence of exactly fourteen formulas, in
    the order gradient .. timeOut, with pairwise different identifiers;
    each can be looked up by its identifier and invoked on its own: on any
    store its compute returns an object with exactly its declared output
    keys. *)
Theorem catalogue_has_fourteen_formulas (tan : float -> float) :
  length (CALCS tan) = 14%nat
  /\ map id (CALCS tan) =
       [ "gradient"; "pitch"; "ias2tas"; "avgTas"; "vvi"; "turnRadius";
         "leadRadial"; "leadDME"; "arcDistance"; "turningDistance"; "loss90";
         "climbDescend"; "vdp"; "timeOut" ]
  /\ NoDup (map id (CALCS tan))
  /\ Forall (fun c => find_calc tan (id c) = Some c) (CALCS tan)
  /\ Forall (fun c => forall v : store,
                 map fst (compute c v) = map out_key (outputs c))
       (CALCS tan).
Proof.
  split; [reflexivity|]. split; [reflexivity|]. split.
  - cbn [CALCS map id]. repeat constructor; intros H;
      repeat (apply elem_of_cons in H as [H | H]; [discriminate H|]);
      now apply elem_of_nil in H.
  - split; unfold CALCS; repeat constructor; intros v; cbn [compute outputs].
    + unfold vvi_compute.
      destruct (negb _); [reflexivity|].
      destruct (Number_isFinite (toNum (prop v "tasNMmin") None));
        [reflexivity|].
      destruct (Number_isFinite (toNum (prop v "tasNMhr") None)); reflexivity.
Qed.

(** The single-file table holds the first thirteen of them. *)
Lemma App_ids_prefix (tan : float -> float) :
  map id (CALCS tan) = (App.ids ++ ["timeOut"])%list.
Proof. reflexivity. Qed.

(** ** The guarded divisions *)

Lemma eps_value : dec 1 (-9) = S754_finite false 4835703278458517 (-82).
Proof. reflexivity. Qed.

(** [Math.max(1e-9, x)] for a Number that is not NaN: the larger one. *)
Lemma max_eps (x : float) :
  is_nan x = false ->
  Math_max (dec 1 (-9)) x = if lt (dec 1 (-9)) x then x else dec 1 (-9).
Proof.
  rewrite eps_value. intros Hx. unfold Math_max.
  change (max_step (Some (S754_infinity true))
            (S754_finite false 4835703278458517 (-82)))
    with (Some (S754_finite false 4835703278458517 (-82))).
  unfold max_step. rewrite Hx.
  destruct x as [[]| | |]; try discriminate Hx;
    match goal with |- context [lt ?a ?b] => destruct (lt a b) end; reflexivity.
Qed.

(** The guarded divisor is a positive finite Number of binary magnitude
    above [-82], or [+Infinity]. *)
Lemma max_eps_shape (x : float) :
  is_nan x = false ->
  Math_max (dec 1 (-9)) x = S754_infinity false
  \/ exists m e, Math_max (dec 1 (-9)) x = S754_finite false m e /\ -82 <= e.
Proof.
  intros Hx. rewrite (max_eps x Hx), eps_value.
  destruct (lt _ x) eqn:Hlt; [|right; eexists _, _; split; [reflexivity|lia]].
  unfold lt, SFltb, SFcompare in Hlt.
  destruct x as [s|s| |s m e]; try discriminate.
  - destruct s; [discriminate | now left].
  - destruct s; [discriminate|]. right. exists m, e. split; [reflexivity|].
    destruct (Z.compare_spec (-82) e) as [Hc | Hc | Hc]; [lia | lia | discriminate].
Qed.

Lemma div_by_finite_not_nan (x : float) (s : bool) (m : positive) (e : Z) :
  is_nan x = false -> is_nan (div x (S754_finite s m e)) = false.
Proof.
  intros Hx. destruct x as [sx|sx| |sx mx ex]; try discriminate; try reflexivity.
  now apply div_not_nan.
Qed.

Lemma finite_not_nan (x : float) : finite x = true -> is_nan x = false.
Proof. now destruct x. Qed.

(** The guarded divisor of a finite Number is finite and positive. *)
Lemma max_eps_finite (d : float) :
  finite d = true ->
  exists m e, Math_max (dec 1 (-9)) d = S754_finite false m e /\ -82 <= e.
Proof.
  intros Hd.
  destruct (max_eps_shape d (finite_not_nan d Hd)) as [H | H]; [|exact H].
  exfalso. rewrite (max_eps d (finite_not_nan d Hd)), eps_value in H.
  destruct (lt _ d); [|discriminate H].
  rewrite H in Hd. discriminate Hd.
Qed.

(** [Math.max] of a finite Number and a positive finite one does not depend
    on the order of the two. *)
Lemma max_finite_comm (d : float) (mc : positive) (ec : Z) :
  finite d = true ->
  Math_max d (S754_finite false mc ec) = Math_max (S754_finite false mc ec) d.
Proof.
  intros Hd. unfold Math_max, max_step, lt, SFltb, SFcompare.
  destruct d as [[]| | |[] m e]; try discriminate Hd; try reflexivity.
  cbn [is_nan].
  pose proof (Pos.compare_cont_antisym m mc Eq) as Hanti. cbn [CompOpp] in Hanti.
  destruct (Z.compare_spec e ec) as [-> | He | He].
  - rewrite Z.compare_refl, <- Hanti.
    destruct (Pos.compare_cont Eq m mc) eqn:E; try reflexivity.
    apply Pos.compare_eq in E. now subst.
  - rewrite (proj2 (Z.compare_gt_iff ec e)) by lia. reflexivity.
  - rewrite (proj2 (Z.compare_lt_iff ec e)) by lia. reflexivity.
Qed.

Lemma max_eps_comm (d : float) :
  finite d = true -> Math_max d (dec 1 (-9)) = Math_max (dec 1 (-9)) d.
Proof. rewrite eps_value. apply max_finite_comm. Qed.

(** A finite dividend over the guarded divisor: never NaN, and at most 83
    binary orders of magnitude above the dividend. *)
Lemma guarded_quotient (a d : float) (b : Z) :
  finite a = true -> is_nan d = false ->
  is_nan (div a (Math_max (dec 1 (-9)) d)) = false
  /\ (below b a = true -> -82 <= b <= 941 ->
      below (b + 83) (div a (Math_max (dec 1 (-9)) d)) = true).
Proof.
  intros Ha Hd.
  destruct (max_eps_shape d Hd) as [-> | (m & e & -> & He)].
  - split; [now apply div_not_nan|]. intros _ _. now destruct a.
  - split; [now apply div_by_finite_not_nan, finite_not_nan|].
    destruct a as [sa|sa| |sa ma ea]; try discriminate; [reflexivity|].
    cbn [below]. intros Hb%Z.leb_le Hbb.
    replace (b + 83) with (b + 82 + 1) by lia.
    apply div_below; [|unfold emax; lia].
    pose proof (Pos2Z.is_pos (digits2_pos m)). lia.
Qed.

(** C6: for every store the gradient formula returns
    toNum(altitude) / max(toNum(distance), 1e-9), the divisor being the
    larger of the two, in either order of the arguments of Math.max; with
    altitude "1000" and distance "2,000" the distance is parsed to 2000 and
    the gradient is 0.5. *)
Theorem gradient_altitude_over_distance (v : store) :
  let altitude := num (toNum (prop v "altitudeChangeFt") fallback0) in
  let distance := num (toNum (prop v "distanceNM") fallback0) in
  gradient_compute v =
    [("gradientFtPerNM", Some (div altitude (Math_max (dec 1 (-9)) distance)))]
  /\ Math_max (dec 1 (-9)) distance = Math_max distance (dec 1 (-9))
  /\ Math_max distance (dec 1 (-9)) =
       (if lt (dec 1 (-9)) distance then distance else dec 1 (-9))
  /\ (v !! "altitudeChangeFt" = Some "1000" -> v !! "distanceNM" = Some "2,000" ->
      altitude = int 1000 /\ distance = int 2000
      /\ gradient_compute v = [("gradientFtPerNM", Some (dec 5 (-1)))]).
Proof.
  cbv zeta. split; [reflexivity|].
  assert (Hcomm : Math_max (dec 1 (-9)) (num (toNum (prop v "distanceNM") fallback0))
                  = Math_max (num (toNum (prop v "distanceNM") fallback0)) (dec 1 (-9))).
  { destruct (toNum_default_finite (prop v "distanceNM")) as (x & -> & Hx).
    symmetry. now apply max_eps_comm. }
  split; [exact Hcomm|]. split.
  - rewrite <- Hcomm. apply max_eps.
    destruct (toNum_default_finite (prop v "distanceNM")) as (x & -> & Hx).
    now apply finite_not_nan.
  - intros Ha Hd. unfold gradient_compute.
    rewrite (prop_some _ _ _ Ha), (prop_some _ _ _ Hd).
    repeat split; vm_compute; reflexivity.
Qed.

Lemma gradient_altitude_over_distance_witness :
  let v := store_of [("altitudeChangeFt", "1000"); ("distanceNM", "2,000");
                     ("rNM", "7")] in
  gradient_compute v = [("gradientFtPerNM", Some (dec 5 (-1)))].
Proof.
  cbv zeta.
  apply (gradient_altitude_over_distance
           (store_of [("altitudeChangeFt", "1000"); ("distanceNM", "2,000");
                      ("rNM", "7")]));
    vm_compute; reflexivity.
Defined.

(** The guarded divisor of a zero is 1e-9. *)
Lemma max_eps_zero (d : float) :
  is_zero d = true -> Math_max (dec 1 (-9)) d = dec 1 (-9).
Proof.
  intros Hd. destruct d as [s| | |]; try discriminate Hd.
  rewrite max_eps by reflexivity. rewrite eps_value. reflexivity.
Qed.

(** A field that is missing or empty is read as [+0]. *)
Lemma blank_reads_zero (v : store) (k : string) :
  v !! k = None \/ v !! k = Some "" ->
  num (toNum (prop v k) fallback0) = pos_zero.
Proof. unfold prop. now intros [-> | ->]. Qed.

(** C4, as the code has it: gradient, climbDescend and leadRadial divide by
    Math.max(1e-9, d), where [d] is the parsed divisor field: each output
    is the quotient written here.  That divisor is the larger of 1e-9 and
    [d], and is 1e-9 when [d] is zero, as for a missing or empty field.  The
    outputs are never NaN, and they are finite whenever the parsed inputs
    are not huge: the dividend below 2^941 for gradient and climbDescend,
    the radius below 2^850 and the radial below 2^940 for leadRadial.  The
    vdp distance is the quotient of the HAT by Math.max(1e-9, slope in
    ft/NM) and behaves the same as long as that slope is not NaN. *)
Theorem guarded_formulas (tan : float -> float) (v : store) :
  (let altitude := num (toNum (prop v "altitudeChangeFt") fallback0) in
   let distance := num (toNum (prop v "distanceNM") fallback0) in
   let q := div altitude (Math_max (dec 1 (-9)) distance) in
   gradient_compute v = [("gradientFtPerNM", Some q)]
   /\ is_nan q = false
   /\ (below 941 altitude = true -> finite q = true))
  /\ (let altitude := num (toNum (prop v "altitudeToClimbFt") fallback0) in
      let gradient := num (toNum (prop v "climbGradientFtPerNM") fallback0) in
      let q := div altitude (Math_max (dec 1 (-9)) gradient) in
      climbDescend_compute v = [("nm", Some q)]
      /\ is_nan q = false
      /\ (below 941 altitude = true -> finite q = true))
  /\ (let r := num (toNum (prop v "rNM") fallback0) in
      let dme := num (toNum (prop v "arcingDME") fallback0) in
      let radial := num (toNum (prop v "interceptRadial") fallback0) in
      let lead := div (mul (int 60) r) (Math_max (dec 1 (-9)) dme) in
      leadRadial_compute v
      = [("leadDegMinus", Some (sub radial lead));
         ("leadDegPlus", Some (add radial lead))]
      /\ is_nan lead = false
      /\ is_nan (sub radial lead) = false /\ is_nan (add radial lead) = false
      /\ (below 850 r = true -> below 940 radial = true ->
          finite (sub radial lead) = true /\ finite (add radial lead) = true))
  /\ (let hat := num (toNum (prop v "hatFt") fallback0) in
      let f := ftPerNMFromDegrees tan (num (toNum (prop v "slopeDeg") fallback0)) in
      let q := div hat (Math_max (dec 1 (-9)) f) in
      vdp_compute tan v = [("vdpNM", Some q); ("ftPerNM", Some f)]
      /\ (is_nan f = false ->
          Math_max (dec 1 (-9)) f = (if lt (dec 1 (-9)) f then f else dec 1 (-9))
          /\ is_nan q = false
          /\ (below 941 hat = true -> finite q = true)))
  /\ (forall k : string,
         let d := num (toNum (prop v k) fallback0) in
         Math_max (dec 1 (-9)) d = (if lt (dec 1 (-9)) d then d else dec 1 (-9))
         /\ (is_zero d = true -> Math_max (dec 1 (-9)) d = dec 1 (-9))
         /\ (v !! k = None \/ v !! k = Some "" ->
             Math_max (dec 1 (-9)) d = dec 1 (-9))).
Proof.
  assert (Hfin : forall k, exists x,
               toNum (prop v k) fallback0 = Some x /\ finite x = true)
    by (intros k; apply toNum_default_finite).
  assert (Hq : forall a d, finite a = true -> is_nan d = false ->
               is_nan (div a (Math_max (dec 1 (-9)) d)) = false
               /\ (below 941 a = true ->
                   finite (div a (Math_max (dec 1 (-9)) d)) = true)).
  { intros a d Ha Hd. destruct (guarded_quotient a d 941 Ha Hd) as [Hn Hb].
    split; [exact Hn|]. intros H. apply (below_finite (941 + 83)), Hb; [exact H|lia]. }
  cbv zeta. split; [|split; [|split; [|split]]].
  - split; [reflexivity|].
    destruct (Hfin "altitudeChangeFt") as (a & Ea & Ha).
    destruct (Hfin "distanceNM") as (d & Ed & Hd).
    rewrite Ea, Ed. cbn [num]. apply Hq; auto using finite_not_nan.
  - split; [reflexivity|].
    destruct (Hfin "altitudeToClimbFt") as (a & Ea & Ha).
    destruct (Hfin "climbGradientFtPerNM") as (d & Ed & Hd).
    rewrite Ea, Ed. cbn [num]. apply Hq; auto using finite_not_nan.
  - split; [reflexivity|].
    destruct (Hfin "rNM") as (r & Er & Hr).
    destruct (Hfin "arcingDME") as (d & Ed & Hd).
    destruct (Hfin "interceptRadial") as (i & Ei & Hi).
    rewrite Er, Ed, Ei. cbn [num].
    assert (H60 : is_nan (mul (int 60) r) = false) by now apply mul_not_nan.
    assert (Hlead : is_nan (div (mul (int 60) r) (Math_max (dec 1 (-9)) d)) = false).
    { destruct (max_eps_finite d Hd) as (m & e & -> & _).
      now apply div_by_finite_not_nan. }
    split; [exact Hlead|].
    split; [now apply sub_not_nan|]. split; [now apply add_not_nan|].
    intros Hbr Hbi.
    assert (H60b : below 857 (mul (int 60) r) = true).
    { apply (mul_below (int 60) r 6 850); [reflexivity | exact Hbr |].
      unfold emax, prec. lia. }
    assert (Hleadb : below 940 (div (mul (int 60) r) (Math_max (dec 1 (-9)) d)) = true).
    { apply (guarded_quotient _ d 857);
        [exact (below_finite _ _ H60b) | now apply finite_not_nan | exact H60b | lia]. }
    destruct (add_sub_below i _ 940 Hbi Hleadb ltac:(unfold emax; lia)) as [Hadd Hsub].
    split; [exact (below_finite _ _ Hsub) | exact (below_finite _ _ Hadd)].
  - split; [reflexivity|]. intros Hf.
    split; [now apply max_eps|].
    destruct (Hfin "hatFt") as (h & Eh & Hh). rewrite Eh. cbn [num].
    now apply Hq.
  - intros k. split; [|split].
    + apply max_eps. destruct (Hfin k) as (x & -> & Hx). now apply finite_not_nan.
    + apply max_eps_zero.
    + intros Hk. rewrite (blank_reads_zero v k Hk). now apply max_eps_zero.
Qed.

Lemma guarded_formulas_witness :
  (exists q,
      gradient_compute (store_of [("altitudeChangeFt", "1000"); ("distanceNM", "0")])
      = [("gradientFtPerNM", Some q)]
      /\ finite q = true)
  /\ (exists a b,
         leadRadial_compute
           (store_of [("rNM", "2"); ("arcingDME", "0"); ("interceptRadial", "90")])
         = [("leadDegMinus", Some a); ("leadDegPlus", Some b)]
         /\ finite a = true /\ finite b = true).
Proof.
  split.
  - pose proof (guarded_formulas (fun x => x)
                  (store_of [("altitudeChangeFt", "1000"); ("distanceNM", "0")]))
      as H.
    cbv zeta in H. destruct H as ((Hq & _ & Hfin) & _).
    eexists. split; [exact Hq|]. apply Hfin. vm_compute. reflexivity.
  - pose proof (guarded_formulas (fun x => x)
                  (store_of [("rNM", "2"); ("arcingDME", "0");
                             ("interceptRadial", "90")]))
      as H.
    cbv zeta in H. destruct H as (_ & _ & (Hab & _ & _ & _ & Hfin) & _).
    eexists _, _. split; [exact Hab|]. apply Hfin; vm_compute; reflexivity.
Defined.

(** C4 as stated fails: with altitude 1e300 and distance 0 the guarded
    quotient 1e300 / 1e-9 overflows, and gradient returns +Infinity. *)
Lemma gradient_overflows_to_infinity :
  gradient_compute (store_of [("altitudeChangeFt", "1e300"); ("distanceNM", "0")])
  = [("gradientFtPerNM", Some (S754_infinity false))].
Proof. vm_compute. reflexivity. Qed.

(** With a tangent that is NaN at infinity, as [Math.tan] is, a slope so
    large that its angle in radians overflows makes both vdp outputs NaN. *)
Lemma vdp_nan_at_huge_slope (tan : float -> float) :
  tan (S754_infinity false) = NaN ->
  vdp_compute tan (store_of [("hatFt", "100"); ("slopeDeg", "1e308")])
  = [("vdpNM", Some NaN); ("ftPerNM", Some NaN)].
Proof.
  intros Htan. unfold vdp_compute, ftPerNMFromDegrees.
  change (num (toNum (prop (store_of [("hatFt", "100"); ("slopeDeg", "1e308")])
                        "slopeDeg") fallback0))
    with (S754_finite false 5010420900022432 971).
  change (div (mul (S754_finite false 5010420900022432 971) Math_PI) (int 180))
    with (S754_infinity false).
  rewrite Htan. reflexivity.
Qed.

(** The same overflow with digits alone: a one followed by 300 zeros. *)
Lemma gradient_overflows_with_digits_only :
  gradient_compute
    (store_of [("altitudeChangeFt", String "1" (zeros 300)); ("distanceNM", "0")])
  = [("gradientFtPerNM", Some (S754_infinity false))].
Proof. vm_compute. reflexivity. Qed.

(** The two zero divisors the specification names: the quotient is taken
    over 1e-9 and is large but finite. *)
Lemma zero_divisor_uses_epsilon :
  gradient_compute (store_of [("altitudeChangeFt", "1000"); ("distanceNM", "0")])
  = [("gradientFtPerNM", Some (div (int 1000) (dec 1 (-9))))]
  /\ leadRadial_compute
       (store_of [("rNM", "2"); ("arcingDME", "0"); ("interceptRadial", "90")])
     = [("leadDegMinus", Some (sub (int 90) (div (int 120) (dec 1 (-9)))));
        ("leadDegPlus", Some (add (int 90) (div (int 120) (dec 1 (-9)))))]
  /\ finite (div (int 1000) (dec 1 (-9))) = true
  /\ finite (sub (int 90) (div (int 120) (dec 1 (-9)))) = true
  /\ finite (add (int 90) (div (int 120) (dec 1 (-9)))) = true.
Proof. repeat split; vm_compute; reflexivity. Qed.

(** ** vvi *)

Lemma toNum_null_cases (v : value) :
  toNum v None = None
  \/ exists x, toNum v None = Some x /\ finite x = true.
Proof.
  destruct (toNum_cases v None) as [H | (x & H & Hx & _)]; eauto.
Qed.

(** The screen's guard on the gradient never fires: with the default
    fallback the parsed gradient is always a finite Number. *)
Lemma vvi_gradient_guard_is_dead (v : store) :
  Number_isFinite (toNum (prop v "gradientFtPerNM") fallback0) = true.
Proof.
  now destruct (toNum_default_finite (prop v "gradientFtPerNM")) as (x & -> & Hx).
Qed.

(** What the screen's vvi returns, by the two TAS inputs alone. *)
Lemma vvi_compute_value (v : store) :
  let gradient := num (toNum (prop v "gradientFtPerNM") fallback0) in
  vvi_compute v =
    match toNum (prop v "tasNMmin") None, toNum (prop v "tasNMhr") None with
    | Some t, _ => [("vviFPM", Some (mul gradient t))]
    | None, Some h => [("vviFPM", Some (mul gradient (div h (int 60))))]
    | None, None => [("vviFPM", None)]
    end.
Proof.
  cbv zeta. unfold vvi_compute. rewrite vvi_gradient_guard_is_dead. cbn [negb].
  destruct (toNum_null_cases (prop v "tasNMmin")) as [-> | (t & -> & Ht)];
    cbn [Number_isFinite]; [|now rewrite Ht].
  destruct (toNum_null_cases (prop v "tasNMhr")) as [-> | (h & -> & Hh)];
    cbn [Number_isFinite]; [reflexivity | now rewrite Hh].
Qed.

(** The single-file vvi does what the specification says: null exactly when
    the gradient has no finite parse or neither TAS input has one, else
    gradient times TAS in NM/min. *)
Lemma App_vvi_compute_value (v : store) :
  App.vvi_compute v =
    match toNum (prop v "gradientFtPerNM") None,
          toNum (prop v "tasNMmin") None, toNum (prop v "tasNMhr") None with
    | None, _, _ => [("vviFPM", None)]
    | Some g, Some t, _ => [("vviFPM", Some (mul g t))]
    | Some g, None, Some h => [("vviFPM", Some (mul g (div h (int 60))))]
    | Some g, None, None => [("vviFPM", None)]
    end.
Proof.
  unfold App.vvi_compute. rewrite !App_toNum_same.
  destruct (toNum (prop v "gradientFtPerNM") None) as [g|]; [|reflexivity].
  destruct (toNum (prop v "tasNMmin") None) as [t|]; [reflexivity|].
  destruct (toNum (prop v "tasNMhr") None) as [h|]; reflexivity.
Qed.

(** The three examples of the specification hold in both variants. *)
Lemma vvi_examples :
  vvi_compute (store_of [("gradientFtPerNM", "300"); ("tasNMmin", "2")])
    = [("vviFPM", Some (int 600))]
  /\ vvi_compute (store_of [("gradientFtPerNM", "300")]) = [("vviFPM", None)]
  /\ vvi_compute (store_of [("gradientFtPerNM", "300"); ("tasNMhr", "120")])
     = [("vviFPM", Some (int 600))]
  /\ App.vvi_compute (store_of [("gradientFtPerNM", "300"); ("tasNMmin", "2")])
     = [("vviFPM", Some (int 600))]
  /\ App.vvi_compute (store_of [("gradientFtPerNM", "300")]) = [("vviFPM", None)]
  /\ App.vvi_compute (store_of [("gradientFtPerNM", "300"); ("tasNMhr", "120")])
     = [("vviFPM", Some (int 600))].
Proof. repeat split; vm_compute; reflexivity. Qed.

(** C1 fails on the screen's vvi: its result is null exactly when neither
    TAS input has a finite parse, whatever the gradient field holds.  With
    an empty (or non-numeric) gradient and TAS 2 NM/min it returns 0, not
    null, where the single-file vvi returns null; so it does on the initial
    store once 2 is typed into the TAS (NM/min) field. *)
Theorem vvi_null_ignores_gradient :
  (forall v : store,
      vvi_compute v = [("vviFPM", None)]
      <-> toNum (prop v "tasNMmin") None = None
          /\ toNum (prop v "tasNMhr") None = None)
  /\ vvi_compute (store_of [("gradientFtPerNM", ""); ("tasNMmin", "2")])
     = [("vviFPM", Some pos_zero)]
  /\ vvi_compute (store_of [("gradientFtPerNM", "abc"); ("tasNMmin", "2")])
     = [("vviFPM", Some pos_zero)]
  /\ App.vvi_compute (store_of [("gradientFtPerNM", ""); ("tasNMmin", "2")])
     = [("vviFPM", None)]
  /\ (forall tan : float -> float,
         vvi_compute (handle (initial_values tan) (Typed "tasNMmin" "2"))
         = [("vviFPM", Some pos_zero)]).
Proof.
  split; [|repeat split; vm_compute; reflexivity].
  intros v. rewrite vvi_compute_value.
  destruct (toNum (prop v "tasNMmin") None) as [t|];
    [split; [discriminate | intros [H _]; discriminate H]|].
  destruct (toNum (prop v "tasNMhr") None) as [h|];
    [split; [discriminate | intros [_ H]; discriminate H]|].
  split; auto.
Qed.

(** ** turnRadius *)

Lemma toNum_of_number (x : float) :
  finite x = true -> toNum (Number x) fallback0 = Some (reread x).
Proof.
  intros Hx. unfold toNum. cbn [nullish parse_value].
  now destruct x.
Qed.

Lemma square_reread (x c : float) :
  finite x = true ->
  mul (mul (reread x) c) (mul (reread x) c) = mul (mul x c) (mul x c).
Proof.
  destruct x as [s| | |]; try discriminate; try reflexivity.
  intros _. cbn [reread pos_zero].
  destruct c as [sc|sc| |sc mc ec]; try reflexivity;
    now destruct s, sc.
Qed.

Lemma zero_angle (y : float) :
  is_zero y = true -> is_zero (div (mul y Math_PI) (int 180)) = true.
Proof. destruct y as [[]| | |]; try discriminate; reflexivity. Qed.

Lemma or_else_reread (y : float) :
  finite y = true ->
  or_else (div (mul (reread y) Math_PI) (int 180)) (dec 1 (-4))
  = or_else (div (mul y Math_PI) (int 180)) (dec 1 (-4)).
Proof.
  destruct y as [[]| | |]; try discriminate; reflexivity.
Qed.

Lemma angle_not_nan (y : float) :
  finite y = true -> is_nan (div (mul y Math_PI) (int 180)) = false.
Proof.
  intros Hy. change (int 180) with (S754_finite false 6333186975989760 (-45)).
  apply div_by_finite_not_nan. now apply mul_not_nan.
Qed.

Lemma turnRadius_compute_value (tan : float -> float) (v : store) :
  let tas := num (toNum (prop v "tasKt") fallback0) in
  let bank := num (toNum (prop v "bankDeg") fallback0) in
  let phi := div (mul bank Math_PI) (int 180) in
  turnRadius_compute tan v =
    [("rNM", Some (radius_of tan tas (if is_zero phi then dec 1 (-4) else phi)))].
Proof.
  cbv zeta. unfold turnRadius_compute, turnRadiusNM, radius_of.
  destruct (toNum_default_finite (prop v "tasKt")) as (t & -> & Ht).
  destruct (toNum_default_finite (prop v "bankDeg")) as (b & -> & Hb).
  cbn [to_value num]. rewrite !toNum_of_number by assumption. cbn [num].
  rewrite square_reread, or_else_reread by assumption.
  unfold or_else. pose proof (angle_not_nan b Hb) as Hn.
  destruct (div (mul b Math_PI) (int 180)); try discriminate Hn; reflexivity.
Qed.

Lemma turnRadius_150_30 (tan : float -> float) (v : store) :
  v !! "tasKt" = Some "150" -> v !! "bankDeg" = Some "30" ->
  turnRadius_compute tan v
  = [("rNM", Some (radius_of tan (int 150) (div (mul (int 30) Math_PI) (int 180))))].
Proof.
  intros Ht Hb. rewrite turnRadius_compute_value.
  rewrite (prop_some _ _ _ Ht), (prop_some _ _ _ Hb).
  change (num (toNum (Str "150") fallback0)) with (int 150).
  change (num (toNum (Str "30") fallback0)) with (int 30).
  change (is_zero (div (mul (int 30) Math_PI) (int 180))) with false.
  reflexivity.
Qed.

(** C7: for every store, turnRadius returns
    (TAS*1.68781)^2 / (32.174 * tan(phi)) / 6076.12 with phi the bank angle
    times PI / 180, replaced by 0.0001 when phi is zero, which it is when
    the bank angle is 0; with TAS "150" and bank "30" this is the formula
    at 150 and 30. *)
Theorem turnRadius_formula (tan : float -> float) (v : store) :
  let tas := num (toNum (prop v "tasKt") fallback0) in
  let bank := num (toNum (prop v "bankDeg") fallback0) in
  let phi := div (mul bank Math_PI) (int 180) in
  let phi' := if is_zero phi then dec 1 (-4) else phi in
  turnRadius_compute tan v = [("rNM", Some (radius_of tan tas phi'))]
  /\ (is_zero bank = true -> phi' = dec 1 (-4))
  /\ (v !! "tasKt" = Some "150" -> v !! "bankDeg" = Some "30" ->
      turnRadius_compute tan v
      = [("rNM",
          Some (radius_of tan (int 150) (div (mul (int 30) Math_PI) (int 180))))]).
Proof.
  cbv zeta. split; [exact (turnRadius_compute_value tan v)|]. split.
  - intros Hz. now rewrite zero_angle.
  - exact (turnRadius_150_30 tan v).
Qed.

Lemma turnRadius_formula_witness :
  turnRadius_compute (fun x => x)
    (store_of [("tasKt", "150"); ("bankDeg", "30"); ("rNM", "1")])
  = [("rNM",
      Some (radius_of (fun x => x) (int 150)
              (div (mul (int 30) Math_PI) (int 180))))].
Proof.
  apply (turnRadius_formula (fun x => x)
           (store_of [("tasKt", "150"); ("bankDeg", "30"); ("rNM", "1")]));
    vm_compute; reflexivity.
Defined.

(** With the tangent of 30 degrees as the engines return it,
    0.5773502691896257, the radius at 150 kt is 0.5678829856839368 NM. *)
Lemma turnRadius_150_30_value (tan : float -> float) (v : store) :
  tan (div (mul (int 30) Math_PI) (int 180)) = dec 5773502691896257 (-16) ->
  v !! "tasKt" = Some "150" -> v !! "bankDeg" = Some "30" ->
  turnRadius_compute tan v = [("rNM", Some (dec 5678829856839368 (-16)))].
Proof.
  intros Htan Ht Hb. rewrite (turnRadius_150_30 tan v Ht Hb).
  unfold radius_of. rewrite Htan. vm_compute. reflexivity.
Qed.

(** ** timeOut *)

Lemma truthy_finite (x : float) :
  finite x = true -> truthy x = negb (is_zero x).
Proof. now destruct x. Qed.

(** C9: timeOut returns (GS/60)*3, (GS/60)*2 and (GS/60)*1, and for the
    custom minutes (GS/60)*custom when the parsed custom input is truthy,
    null when it is falsy; it is falsy exactly when it parses to zero, which
    is the case when the field is absent or has no finite parse. *)
Theorem timeOut_distances (v : store) :
  let gs := num (toNum (prop v "groundSpeedKt") fallback0) in
  let custom := num (toNum (prop v "customMinutes") fallback0) in
  let nmPerMin := div gs (int 60) in
  timeOut_compute v =
    [ ("dist3min", Some (mul nmPerMin (int 3)));
      ("dist2min", Some (mul nmPerMin (int 2)));
      ("dist1min", Some (mul nmPerMin (int 1)));
      ("distCustom", if truthy custom then Some (mul nmPerMin custom) else None) ]
  /\ truthy custom = negb (is_zero custom)
  /\ (v !! "customMinutes" = None -> truthy custom = false)
  /\ (forall s, v !! "customMinutes" = Some s ->
                finite (parseFloat (remove_commas s)) = false ->
                truthy custom = false)
  /\ (forall s, v !! "customMinutes" = Some s ->
                is_zero (parseFloat (remove_commas s)) = true ->
                truthy custom = false).
Proof.
  cbv zeta. split; [reflexivity|]. split; [|split; [|split]].
  - destruct (toNum_default_finite (prop v "customMinutes")) as (x & -> & Hx).
    now apply truthy_finite.
  - intros H. now rewrite (prop_none _ _ H).
  - intros s H Hs. rewrite (prop_some _ _ _ H). unfold toNum.
    cbn [nullish parse_value]. now rewrite Hs.
  - intros s H Hs. rewrite (prop_some _ _ _ H). unfold toNum.
    cbn [nullish parse_value].
    destruct (parseFloat (remove_commas s)); try discriminate Hs. reflexivity.
Qed.

Lemma timeOut_distances_witness :
  out_prop (timeOut_compute (store_of [("groundSpeedKt", "120")])) "distCustom"
  = Some None.
Proof.
  destruct (timeOut_distances (store_of [("groundSpeedKt", "120")]))
    as (E & _ & H & _).
  rewrite E. cbn [out_prop String.eqb Ascii.eqb Bool.eqb].
  rewrite H; reflexivity.
Defined.

(** ** Formulas read their declared fields only *)

(** Rewrites every property read of [v1] into the same read of [v2], given
    that the two stores agree on the keys read. *)
Ltac same_reads :=
  repeat match goal with
         | H : ?v1 !! ?k = ?v2 !! ?k |- _ =>
             rewrite (prop_agree v1 v2 k H); clear H
         end.

(** C8: a formula's outputs depend on its declared input fields only: two
    stores that agree on the declared keys of a formula, whatever else they
    hold, give the same outputs.  A compute is a function of the store: it
    returns its outputs and leaves the store as it was. *)
Theorem compute_reads_declared_fields
    (tan : float -> float) (c : calc) (v1 v2 : store) :
  c ∈ CALCS tan ->
  (forall f : field, f ∈ fields c -> v1 !! key f = v2 !! key f) ->
  compute c v1 = compute c v2.
Proof.
  intros Hc Hagree. apply Forall_forall in Hagree.
  unfold CALCS in Hc.
  repeat (apply elem_of_cons in Hc as [-> | Hc]);
    [.. | now apply elem_of_nil in Hc];
    cbn [fields compute] in *;
    repeat match goal with
           | H : Forall _ (_ :: _) |- _ =>
               apply Forall_cons in H as [? H]
           | H : Forall _ [] |- _ => clear H
           end;
    unfold fld in *; cbn [key] in *;
    unfold gradient_compute, pitch_compute, ias2tas_compute, avgTas_compute,
      vvi_compute, turnRadius_compute, leadRadial_compute, leadDME_compute,
      arcDistance_compute, turningDistance_compute, loss90_compute,
      climbDescend_compute, vdp_compute, timeOut_compute;
    same_reads; reflexivity.
Qed.

Lemma compute_reads_declared_fields_witness :
  gradient_compute
    (store_of [("altitudeChangeFt", "1000"); ("distanceNM", "4"); ("rNM", "1")])
  = gradient_compute
      (store_of [("altitudeChangeFt", "1000"); ("distanceNM", "4");
                 ("tasKt", "150")]).
Proof.
  apply (compute_reads_declared_fields (fun x => x)
           (Calc "gradient" "1) Gradient (ft/NM)"
              [ fld "altitudeChangeFt" "Altitude Change (ft)";
                fld "distanceNM" "Distance Traveled (NM)" ]
              gradient_compute
              [ Output "gradientFtPerNM" "Gradient (ft/NM)" ]
              (Some "Gradient (ft/NM) = Δ Altitude (ft) ÷ Distance (NM)"))).
  - apply list_elem_of_here.
  - intros f Hf. cbn [fields] in Hf.
    apply elem_of_cons in Hf as [-> | Hf]; [reflexivity|].
    apply elem_of_cons in Hf as [-> | Hf]; [reflexivity|].
    now apply elem_of_nil in Hf.
Defined.

(** ** The clear action *)

Lemma initial_values_lookup (tan : float -> float) :
  Forall (fun f => initial_values tan !! key f = Some (default_text f))
    (declared_fields tan).
Proof. repeat constructor. Qed.

(** C2, as the code has it: after the clear action the store is the empty
    object, whatever it held: every declared field is absent, is shown as
    the empty string and is parsed like the empty string.  The initial
    store holds each field's default text instead, so the two agree on the
    shown text of every field but [bankDeg], whose default "30" the clear
    action does not restore. *)
Theorem clear_empties_store
    (tan : float -> float) (values : store) (c : calc) (f : field) :
  c ∈ CALCS tan -> f ∈ fields c ->
  handle values ClearAll = ∅
  /\ handle values ClearAll !! key f = None
  /\ field_text (handle values ClearAll) f = ""
  /\ (forall fb, toNum (prop (handle values ClearAll) (key f)) fb
                 = toNum (Str "") fb)
  /\ initial_values tan !! key f = Some (default_text f)
  /\ (key f <> "bankDeg" ->
      field_text (handle values ClearAll) f = field_text (initial_values tan) f)
  /\ (key f = "bankDeg" -> field_text (initial_values tan) f = "30").
Proof.
  intros Hc Hf. cbn [handle].
  assert (Hdecl : f ∈ declared_fields tan).
  { unfold declared_fields. apply list_elem_of_In, in_flat_map.
    exists c. split; now apply list_elem_of_In. }
  pose proof (initial_values_lookup tan) as Hinit.
  rewrite Forall_forall in Hinit. specialize (Hinit f Hdecl).
  split; [reflexivity|]. split; [apply lookup_empty|].
  split; [unfold field_text, prop; now rewrite lookup_empty|].
  split; [intros fb; unfold prop; now rewrite lookup_empty|].
  split; [exact Hinit|].
  unfold field_text at 2 3, prop. rewrite Hinit. cbn [nullish].
  unfold field_text, prop. rewrite lookup_empty. cbn [nullish].
  clear Hinit Hc Hf. unfold declared_fields, CALCS in Hdecl.
  cbn [flat_map fields app] in Hdecl.
  repeat (apply elem_of_cons in Hdecl as [-> | Hdecl]);
    [.. | now apply elem_of_nil in Hdecl];
    (split; [intros Hk; try reflexivity; now elim Hk
            | intros Hk; try reflexivity; discriminate Hk]).
Qed.

Lemma clear_empties_store_witness :
  field_text (handle (store_of [("bankDeg", "45"); ("tasKt", "150")]) ClearAll)
    (fld "tasKt" "TAS (kt)")
  = "".
Proof.
  destruct (clear_empties_store (fun x => x)
           (store_of [("bankDeg", "45"); ("tasKt", "150")])
           (Calc "turnRadius" "6) Turn Radius (bank-aware physics)"
              [ fld "tasKt" "TAS (kt)";
                Field "bankDeg" "Bank Angle (°)" (Some "30") false ]
              (turnRadius_compute (fun x => x))
              [ Output "rNM" "Turn Radius (NM)" ]
              (Some "r (NM) = (V² ÷ (g × tan φ)) ÷ 6076.12"))
           (fld "tasKt" "TAS (kt)")) as (_ & _ & H & _).
  - unfold CALCS. do 5 apply list_elem_of_further. apply list_elem_of_here.
  - apply list_elem_of_here.
  - exact H.
Defined.

(** C2 as stated fails: after typing nothing at all and clearing, the bank
    angle field shows the empty string, not its default "30" as at
    startup. *)
Lemma clear_does_not_restore_default :
  field_text (handle (initial_values (fun x => x)) ClearAll)
    (Field "bankDeg" "Bank Angle (°)" (Some "30") false) = ""
  /\ field_text (initial_values (fun x => x))
       (Field "bankDeg" "Bank Angle (°)" (Some "30") false) = "30"
  /\ handle (initial_values (fun x => x)) ClearAll <> initial_values (fun x => x).
Proof.
  split; [reflexivity|]. split; [reflexivity|].
  intros H. apply (f_equal (fun m : store => m !! "bankDeg")) in H.
  discriminate H.
Qed.

(** * Further properties *)

(** ** More of the parser *)

Lemma white_not_comma (c : ascii) : is_white c = true -> Ascii.eqb c "," = false.
Proof. each_char c; intros H; try discriminate H; reflexivity. Qed.

Lemma remove_commas_white (ws s : string) :
  all_white ws = true -> remove_commas (ws ++ s) = ws ++ remove_commas s.
Proof.
  induction ws as [|c ws IH]; [reflexivity|].
  cbn [all_white]. intros [Hc Hw]%andb_true_iff.
  change (String c ws ++ s) with (String c (ws ++ s)).
  cbn [remove_commas]. rewrite (white_not_comma c Hc), (IH Hw). reflexivity.
Qed.

Lemma trim_start_white (ws s : string) :
  all_white ws = true -> trim_start (ws ++ s) = trim_start s.
Proof.
  induction ws as [|c ws IH]; [reflexivity|].
  cbn [all_white]. intros [Hc Hw]%andb_true_iff.
  change (String c ws ++ s) with (String c (ws ++ s)).
  cbn [trim_start]. rewrite Hc. exact (IH Hw).
Qed.

Lemma parseFloat_trim (s : string) : parseFloat (trim_start s) = parseFloat s.
Proof.
  unfold parseFloat, signed_literal.
  assert (H : trim_start (trim_start s) = trim_start s); [|now rewrite H].
  induction s as [|c s IH]; [reflexivity|].
  cbn [trim_start]. destruct (is_white c) eqn:E; [exact IH|].
  cbn [trim_start]. now rewrite E.
Qed.

(** X1: toNum skips leading white space: a text preceded by any run of
    spaces, tabs, line breaks or no-break spaces parses as the text
    itself, with every fallback. *)
Theorem toNum_skips_leading_white (ws s : string) (fb : result) :
  all_white ws = true -> toNum (Str (ws ++ s)) fb = toNum (Str s) fb.
Proof.
  intros Hw. unfold toNum. cbn [nullish parse_value].
  rewrite (remove_commas_white ws s Hw).
  rewrite <- (parseFloat_trim (ws ++ _)), (trim_start_white _ _ Hw), parseFloat_trim.
  reflexivity.
Qed.

Lemma toNum_skips_leading_white_witness :
  toNum (Str ("  " ++ "1,250 ft")) fallback0 = toNum (Str "1,250 ft") fallback0.
Proof. apply toNum_skips_leading_white. reflexivity. Defined.

Lemma binary_round_aux_opp (mx ex : Z) (lx : location) :
  binary_round_aux prec emax true mx ex lx
  = SFopp (binary_round_aux prec emax false mx ex lx).
Proof.
  unfold binary_round_aux.
  destruct (shr_fexp prec emax mx ex lx) as [mrs' e'].
  destruct (shr_fexp prec emax _ e' loc_Exact) as [mrs'' e''].
  destruct (shr_m mrs''); try reflexivity. now destruct (_ <=? _).
Qed.

Lemma of_decimal_opp (m e : Z) :
  of_decimal true m e = SFopp (of_decimal false m e).
Proof.
  unfold of_decimal. destruct m; try reflexivity.
  destruct (0 <=? e).
  - unfold binary_round. destruct (shl_align _ _ _). apply binary_round_aux_opp.
  - destruct (SFdiv_core_binary _ _ _ _ _ _) as [[q e'] l].
    apply binary_round_aux_opp.
Qed.

Lemma signed_literal_unsigned (u : string) :
  unsigned_head u = true ->
  signed_literal u = option_map (pair false) (unsigned_literal u)
  /\ signed_literal (String "-" u) = option_map (pair true) (unsigned_literal u)
  /\ signed_literal (String "+" u) = option_map (pair false) (unsigned_literal u).
Proof.
  intros Hu. unfold signed_literal. cbn [trim_start is_white].
  change (is_white "-") with false. change (is_white "+") with false. cbv iota.
  destruct u as [|c r].
  - repeat split; cbn [trim_start]; now destruct (unsigned_literal "").
  - cbn [unsigned_head] in Hu.
    assert (Ht : trim_start (String c r) = String c r).
    { cbn [trim_start]. destruct (is_white c); [discriminate Hu | reflexivity]. }
    rewrite Ht.
    assert (Hs : match String c r with
                 | String "+" r0 => (false, r0)
                 | String "-" r0 => (true, r0)
                 | _ => (false, String c r)
                 end = (false, String c r)).
    { destruct (is_white c); [discriminate Hu|].
      each_char c; try discriminate Hu; reflexivity. }
    rewrite Hs.
    repeat split; now destruct (unsigned_literal (String c r)).
Qed.

Lemma parseFloat_signs (u : string) :
  unsigned_head u = true ->
  parseFloat (String "-" u) = SFopp (parseFloat u)
  /\ parseFloat (String "+" u) = parseFloat u.
Proof.
  intros Hu. destruct (signed_literal_unsigned u Hu) as (H0 & Hm & Hp).
  unfold parseFloat. rewrite H0, Hm, Hp.
  destruct (unsigned_literal u) as [[|m e]|]; cbn [option_map]; split;
    try reflexivity.
  apply of_decimal_opp.
Qed.

Lemma finite_opp (x : float) : finite (SFopp x) = finite x.
Proof. now destruct x. Qed.

Lemma read_digits_uint (d : Decimal.uint) (r : string) (acc cnt : Z) :
  read_digits acc cnt (DecimalString.NilEmpty.string_of_uint d ++ r)
  = read_digits (uint_value d acc) (cnt + Z.of_nat (Decimal.nb_digits d)) r.
Proof.
  revert acc cnt.
  induction d as [|d IH|d IH|d IH|d IH|d IH|d IH|d IH|d IH|d IH|d IH];
    intros acc cnt; cbn [DecimalString.NilEmpty.string_of_uint Decimal.nb_digits uint_value];
    [change ("" ++ r) with r; now rewrite Z.add_0_r|..];
    match goal with
    | |- context [String ?c ?s ++ r] => change (String c s ++ r) with (String c (s ++ r))
    end;
    cbn [read_digits];
    match goal with
    | |- context [digit_of ?c] =>
        let v := eval vm_compute in (digit_of c) in change (digit_of c) with v
    end;
    cbv iota; rewrite IH, ?Z.add_0_r; f_equal; lia.
Qed.

Lemma uint_value_acc (d : Decimal.uint) (acc : positive) :
  uint_value d (Zpos acc) = Zpos (Pos.of_uint_acc d acc).
Proof.
  revert acc.
  induction d as [|d IH|d IH|d IH|d IH|d IH|d IH|d IH|d IH|d IH|d IH];
    intros acc; cbn [uint_value Pos.of_uint_acc]; [reflexivity|..];
    rewrite <- IH; f_equal; lia.
Qed.

Lemma uint_value_of_uint (d : Decimal.uint) : uint_value d 0 = Z.of_N (N.of_uint d).
Proof.
  unfold N.of_uint.
  induction d as [|d IH|d IH|d IH|d IH|d IH|d IH|d IH|d IH|d IH|d IH];
    cbn [uint_value Pos.of_uint]; [reflexivity | exact IH |..];
    match goal with
    | |- uint_value _ ?a = _ => let v := eval vm_compute in a in change a with v
    end;
    now rewrite uint_value_acc.
Qed.

Lemma numeral_digits (n : N) :
  numeral n = DecimalString.NilEmpty.string_of_uint (N.to_uint n) /\ N.to_uint n <> Decimal.Nil.
Proof.
  unfold numeral, DecimalString.NilZero.string_of_uint.
  destruct n as [|p]; [split; [reflexivity | discriminate]|].
  cbn [N.to_uint]. pose proof (DecimalPos.Unsigned.to_uint_nonnil p) as Hp.
  split; [|exact Hp]. now destruct (Pos.to_uint p).
Qed.

(** Reading a numeral: all its digits, with its value. *)
Lemma read_numeral (n : N) (r : string) :
  exists k, 0 < k
            /\ read_digits 0 0 (numeral n ++ r) = read_digits (Z.of_N n) k r.
Proof.
  destruct (numeral_digits n) as [-> Hnil].
  exists (Z.of_nat (Decimal.nb_digits (N.to_uint n))). split.
  - destruct (N.to_uint n); [now elim Hnil|..]; cbn [Decimal.nb_digits]; lia.
  - rewrite read_digits_uint, uint_value_of_uint, DecimalN.Unsigned.of_to.
    reflexivity.
Qed.

Lemma remove_commas_uint (d : Decimal.uint) (r : string) :
  remove_commas (DecimalString.NilEmpty.string_of_uint d ++ r)
  = DecimalString.NilEmpty.string_of_uint d ++ remove_commas r.
Proof.
  induction d as [|d IH|d IH|d IH|d IH|d IH|d IH|d IH|d IH|d IH|d IH];
    cbn [DecimalString.NilEmpty.string_of_uint]; [reflexivity|..];
    match goal with
    | |- context [String ?c ?s ++ r] =>
        change (String c s ++ r) with (String c (s ++ r));
        change (String c s ++ remove_commas r)
          with (String c (s ++ remove_commas r))
    end;
    cbn [remove_commas Ascii.eqb Bool.eqb]; cbv iota; now rewrite IH.
Qed.

Lemma read_digits_stop (s : string) (acc cnt : Z) :
  ends_numeral s = true -> read_digits acc cnt s = (acc, cnt, s).
Proof.
  destruct s as [|c r]; [reflexivity|]. cbn [ends_numeral read_digits].
  now destruct (digit_of c).
Qed.

Lemma read_exponent_stop (s : string) :
  ends_numeral s = true -> read_exponent s = 0.
Proof.
  destruct s as [|c r]; [reflexivity|]. cbn [ends_numeral read_exponent].
  destruct (digit_of c); [discriminate|].
  intros H%negb_true_iff. apply orb_false_iff in H as [H HE].
  apply orb_false_iff in H as [_ He]. now rewrite He, HE.
Qed.

(** The literal of a run of digits followed by something else. *)
Lemma unsigned_literal_uint (d : Decimal.uint) (r : string) :
  d <> Decimal.Nil -> ends_numeral r = true ->
  unsigned_head (DecimalString.NilEmpty.string_of_uint d ++ r) = true
  /\ unsigned_literal (DecimalString.NilEmpty.string_of_uint d ++ r)
     = Some (LitDecimal (uint_value d 0) 0).
Proof.
  intros Hd Hr.
  assert (Hp : unsigned_head (DecimalString.NilEmpty.string_of_uint d ++ r) = true
               /\ String.prefix "Infinity" (DecimalString.NilEmpty.string_of_uint d ++ r) = false).
  { destruct d; [now elim Hd|..]; split; reflexivity. }
  destruct Hp as [Hh Hp]. split; [exact Hh|].
  unfold unsigned_literal. rewrite Hp.
  rewrite read_digits_uint, (read_digits_stop r _ _ Hr).
  assert (Hk : (0 + Z.of_nat (Decimal.nb_digits d) =? 0) = false).
  { apply Z.eqb_neq. destruct d; [now elim Hd|..]; cbn [Decimal.nb_digits]; lia. }
  rewrite (read_exponent_stop r Hr).
  destruct r as [|c r']; [now rewrite Hk|].
  cbn [ends_numeral] in Hr.
  each_char c; try discriminate Hr; now rewrite Hk.
Qed.

(** X2: a text that starts with the decimal numeral of a natural number,
    followed by anything that does not continue the numeral (no digit, dot
    or exponent mark once the commas are dropped), parses to the double
    nearest to that number; the fallback is returned only when that double
    is an infinity. *)
Theorem toNum_reads_integer_numeral (n : N) (r : string) (fb : result) :
  ends_numeral (remove_commas r) = true ->
  toNum (Str (numeral n ++ r)) fb
  = if finite (int (Z.of_N n)) then Some (int (Z.of_N n)) else fb.
Proof.
  intros Hr. destruct (numeral_digits n) as [-> Hnil].
  unfold toNum. cbn [nullish parse_value]. rewrite remove_commas_uint.
  destruct (unsigned_literal_uint (N.to_uint n) _ Hnil Hr) as [Hh Hu].
  destruct (signed_literal_unsigned _ Hh) as (Hs & _).
  unfold parseFloat. rewrite Hs, Hu. cbn [option_map].
  rewrite uint_value_of_uint, DecimalN.Unsigned.of_to. reflexivity.
Qed.

Lemma toNum_reads_integer_numeral_witness :
  toNum (Str (numeral 2000 ++ " ft")) None
  = if finite (int (Z.of_N 2000)) then Some (int (Z.of_N 2000)) else None.
Proof. apply toNum_reads_integer_numeral. reflexivity. Defined.

(** X3: a leading minus sign negates and a leading plus sign is ignored:
    for a text that does not itself start with white space or a sign,
    [toNum] of the text behind a minus is the negated Number of the text
    (the fallback when the text has none), and behind a plus it is that of
    the text. *)
Theorem toNum_sign_prefix (s : string) (fb : result) :
  unsigned_head (remove_commas s) = true ->
  toNum (Str (String "-" s)) fb
  = match toNum (Str s) None with Some x => Some (SFopp x) | None => fb end
  /\ toNum (Str (String "+" s)) fb = toNum (Str s) fb.
Proof.
  intros Hs. unfold toNum. cbn [nullish parse_value remove_commas].
  change (Ascii.eqb "-" ",") with false. change (Ascii.eqb "+" ",") with false.
  cbv iota.
  destruct (parseFloat_signs _ Hs) as [-> ->]. rewrite finite_opp.
  split; now destruct (finite (parseFloat (remove_commas s))).
Qed.

Lemma toNum_sign_prefix_witness :
  toNum (Str (String "-" "2.5")) fallback0
  = match toNum (Str "2.5") None with
    | Some x => Some (SFopp x)
    | None => fallback0
    end
  /\ toNum (Str (String "+" "2.5")) fallback0 = toNum (Str "2.5") fallback0.
Proof. apply toNum_sign_prefix. reflexivity. Defined.

(** ** Runs of digits *)

Lemma append_cons (c : ascii) (s r : string) : String c s ++ r = String c (s ++ r).
Proof. reflexivity. Qed.

Lemma append_nil_l (r : string) : "" ++ r = r.
Proof. reflexivity. Qed.

Lemma length_app (a b : string) :
  String.length (a ++ b) = (String.length a + String.length b)%nat.
Proof.
  induction a as [|c a IH]; [reflexivity|].
  rewrite append_cons. cbn [String.length]. now rewrite IH.
Qed.

Lemma substring_all (s : string) : String.substring 0 (String.length s) s = s.
Proof. induction s as [|c s IH]; [reflexivity|]. cbn. now rewrite IH. Qed.

Lemma substring_split (s : string) (j : nat) :
  (j <= String.length s)%nat ->
  String.substring 0 j s ++ String.substring j (String.length s - j) s = s
  /\ String.length (String.substring 0 j s) = j.
Proof.
  revert j. induction s as [|c s IH]; intros j Hj.
  - cbn in Hj. assert (j = 0%nat) as -> by lia. now split.
  - destruct j as [|j].
    + rewrite Nat.sub_0_r, substring_all. now split.
    + cbn [String.length] in *. destruct (IH j ltac:(lia)) as [H1 H2].
      cbn [String.substring Nat.sub]. rewrite append_cons, H1.
      cbn [String.length]. now rewrite H2.
Qed.

Lemma all_digits_app (a b : string) :
  all_digits (a ++ b) = all_digits a && all_digits b.
Proof.
  induction a as [|c a IH]; [reflexivity|].
  rewrite append_cons. cbn [all_digits]. now destruct (digit_of c).
Qed.

Lemma digits_value_app (a b : string) (acc : Z) :
  all_digits a = true ->
  digits_value acc (a ++ b) = digits_value (digits_value acc a) b.
Proof.
  revert acc. induction a as [|c a IH]; intros acc Ha; [reflexivity|].
  rewrite append_cons. cbn [all_digits digits_value] in *.
  destruct (digit_of c); [now apply IH | discriminate].
Qed.

Lemma read_digits_all (a r : string) (acc cnt : Z) :
  all_digits a = true ->
  read_digits acc cnt (a ++ r)
  = read_digits (digits_value acc a) (cnt + Z.of_nat (String.length a)) r.
Proof.
  revert acc cnt. induction a as [|c a IH]; intros acc cnt Ha.
  - rewrite append_nil_l. cbn [digits_value String.length]. now rewrite Z.add_0_r.
  - rewrite append_cons. cbn [all_digits digits_value read_digits String.length] in *.
    destruct (digit_of c); [|discriminate]. rewrite IH by exact Ha.
    f_equal. lia.
Qed.

Lemma zeros_digits (j : nat) (acc : Z) :
  all_digits (zeros j) = true
  /\ String.length (zeros j) = j
  /\ digits_value 0 (zeros j) = 0.
Proof.
  induction j as [|j (IH1 & IH2 & IH3)]; [now repeat split|].
  cbn [zeros all_digits String.length digits_value].
  change (digit_of "0") with (Some 0). cbv iota. cbn [Z.mul Z.add].
  repeat split; auto.
Qed.

Lemma uint_digits (d : Decimal.uint) (acc : Z) :
  all_digits (DecimalString.NilEmpty.string_of_uint d) = true
  /\ digits_value acc (DecimalString.NilEmpty.string_of_uint d) = uint_value d acc
  /\ String.length (DecimalString.NilEmpty.string_of_uint d) = Decimal.nb_digits d.
Proof.
  revert acc.
  induction d as [|d IH|d IH|d IH|d IH|d IH|d IH|d IH|d IH|d IH|d IH];
    intros acc;
    cbn [DecimalString.NilEmpty.string_of_uint Decimal.nb_digits uint_value
         all_digits digits_value String.length];
    [now repeat split|..];
    match goal with
    | |- context [digit_of ?c] =>
        let v := eval vm_compute in (digit_of c) in change (digit_of c) with v
    end;
    cbv iota; rewrite ?Z.add_0_r;
    (destruct (IH (10 * acc)) as (H1 & H2 & H3)
     || destruct (IH (10 * acc + 1)) as (H1 & H2 & H3));
    repeat split; auto; apply IH.
Qed.

(** The numeral of a natural number: digits only, at least one, of that
    value. *)
Lemma numeral_value (n : N) :
  all_digits (numeral n) = true
  /\ digits_value 0 (numeral n) = Z.of_N n
  /\ (1 <= String.length (numeral n))%nat.
Proof.
  destruct (numeral_digits n) as [-> Hnil].
  destruct (uint_digits (N.to_uint n) 0) as (H1 & H2 & H3).
  split; [exact H1|]. split.
  - rewrite H2, uint_value_of_uint, DecimalN.Unsigned.of_to. reflexivity.
  - rewrite H3. destruct (N.to_uint n); [now elim Hnil|..]; cbn; lia.
Qed.

Lemma digit_not_special (c : ascii) :
  digit_of c <> None ->
  Ascii.eqb c "," = false /\ is_white c = false
  /\ Ascii.eqb c "+" = false /\ Ascii.eqb c "-" = false /\ c <> "I"%char.
Proof. each_char c; intros H; try (now elim H); repeat split; discriminate. Qed.

Lemma remove_commas_digits (a : string) :
  all_digits a = true -> remove_commas a = a.
Proof.
  induction a as [|c a IH]; [reflexivity|]. cbn [all_digits remove_commas].
  destruct (digit_of c) eqn:E; [|discriminate]. intros Ha.
  destruct (digit_not_special c) as (-> & _); [congruence|]. now rewrite IH.
Qed.

Lemma append_nil_r (s : string) : s ++ "" = s.
Proof. induction s as [|c s IH]; [reflexivity|]. now rewrite append_cons, IH. Qed.

Lemma read_digits_end (r : string) (acc cnt : Z) :
  ends_fraction r = true ->
  read_digits acc cnt r = (acc, cnt, r) /\ read_exponent r = 0.
Proof.
  destruct r as [|c r]; [now split|]. cbn [ends_fraction read_digits read_exponent].
  destruct (digit_of c); [discriminate|]. intros H%negb_true_iff.
  now rewrite H.
Qed.

(** X4: toNum reads a decimal text with a fraction.  When the text, its
    commas dropped, is a run of digits, the dot, a run of digits (one of
    the two runs may be empty, as in "5." and ".5") and a rest that is not
    a digit or an exponent mark, [toNum] returns the double nearest to the
    digits taken as a whole number over 10 to the count of fraction
    digits; the fallback only when that double is an infinity. *)
Theorem toNum_reads_decimal_text (s a b r : string) (fb : result) :
  remove_commas s = a ++ "." ++ b ++ r ->
  all_digits a = true -> all_digits b = true ->
  (1 <= String.length a + String.length b)%nat -> ends_fraction r = true ->
  toNum (Str s) fb
  = let y := of_decimal false (digits_value 0 (a ++ b))
               (- Z.of_nat (String.length b)) in
    if finite y then Some y else fb.
Proof.
  intros Hs Ha Hb Hl Hr. unfold toNum. cbn [nullish parse_value]. rewrite Hs.
  destruct (read_digits_end r (digits_value 0 (a ++ b))
              (0 + Z.of_nat (String.length b)) Hr) as [Hr1 Hr2].
  assert (H1 : read_digits 0 0 (a ++ "." ++ b ++ r)
               = (digits_value 0 a, Z.of_nat (String.length a), String "." (b ++ r))).
  { rewrite read_digits_all by exact Ha. reflexivity. }
  assert (H2 : read_digits (digits_value 0 a) 0 (b ++ r)
               = (digits_value 0 (a ++ b), 0 + Z.of_nat (String.length b), r)).
  { rewrite read_digits_all by exact Hb.
    rewrite <- digits_value_app by exact Ha. exact Hr1. }
  assert (Hh : unsigned_head (a ++ "." ++ b ++ r) = true
               /\ String.prefix "Infinity" (a ++ "." ++ b ++ r) = false).
  { destruct a as [|c a']; [now split|].
    cbn [all_digits] in Ha. destruct (digit_of c) eqn:Ec; [|discriminate].
    destruct (digit_not_special c) as (_ & Hw & Hp & Hm & HI); [congruence|].
    rewrite append_cons. cbn [unsigned_head String.prefix].
    rewrite Hw, Hp, Hm. split; [reflexivity|].
    destruct (ascii_dec "I" c) as [E|]; [now elim HI | reflexivity]. }
  destruct Hh as [Hh HInf].
  destruct (signed_literal_unsigned _ Hh) as (H0 & _).
  unfold parseFloat. rewrite H0. unfold unsigned_literal.
  rewrite HInf, H1, H2, Hr2.
  assert (Hn : (Z.of_nat (String.length a) =? 0)
               && (0 + Z.of_nat (String.length b) =? 0) = false).
  { apply andb_false_iff.
    destruct (String.length a); [right | left]; apply Z.eqb_neq; lia. }
  rewrite Hn. cbn [option_map]. cbv zeta.
  now rewrite Z.add_0_l, Z.sub_0_l.
Qed.

Lemma toNum_reads_decimal_text_witness :
  toNum (Str "1,250.5 ft") None
  = let y := of_decimal false (digits_value 0 ("1250" ++ "5"))
               (- Z.of_nat (String.length "5")) in
    if finite y then Some y else None.
Proof.
  apply (toNum_reads_decimal_text "1,250.5 ft" "1250" "5" " ft"); try reflexivity.
  cbn. lia.
Defined.

(** ** Magnitudes of the outputs *)

Lemma add_comm (x y : float) : add x y = add y x.
Proof.
  destruct x as [sx|sx| |sx mx ex], y as [sy|sy| |sy my ey]; try reflexivity;
    try (now destruct sx, sy).
  unfold add, SFadd. now rewrite (Z.min_comm ey ex), Z.add_comm.
Qed.

(** What rounding returns, when finite, is below [2 ^ emax]. *)
Lemma shr_fexp_canonical (m e : Z) (l : location) :
  0 <= m ->
  let '(mrs, e') := shr_fexp prec emax m e l in
  e' <= emax - prec -> Zdigits2 (shr_m mrs) + e' <= emax.
Proof.
  intros Hm. unfold shr_fexp, shr.
  set (n := fexp prec emax (Zdigits2 m + e) - e).
  pose proof (Zdigits2_nonneg m) as Hd0.
  destruct n as [|p|p] eqn:En.
  - rewrite shr_record_of_loc_m. intros He.
    unfold fexp, SpecFloat.emin, prec, emax in *. lia.
  - rewrite shr_iter_shiftr by lia. intros He.
    rewrite Z.shiftr_div_pow2 by lia.
    pose proof (Zdigits2_lt_pow m Hm) as Hlt.
    assert (Hq : 0 <= m / 2 ^ Zpos p) by (apply Z.div_pos; lia).
    destruct (Z_le_gt_dec (Zpos p) (Zdigits2 m)) as [Hle | Hgt].
    + assert (Zdigits2 (m / 2 ^ Zpos p) <= Zdigits2 m - Zpos p).
      { apply Zdigits2_le; [lia | lia |].
        apply Z.div_lt_upper_bound; [lia|].
        rewrite <- Z.pow_add_r by lia.
        now replace (Zpos p + (Zdigits2 m - Zpos p)) with (Zdigits2 m) by lia. }
      unfold fexp, SpecFloat.emin, prec, emax in *. lia.
    + assert (Hz : m / 2 ^ Zpos p = 0).
      { apply Z.div_small. split; [lia|].
        eapply Z.lt_le_trans; [exact Hlt|].
        apply Z.pow_le_mono_r; lia. }
      rewrite Hz. cbn [Zdigits2]. unfold prec, emax in *. lia.
  - rewrite shr_record_of_loc_m. intros He.
    unfold fexp, SpecFloat.emin, prec, emax in *. lia.
Qed.

Lemma binary_round_aux_range (sx : bool) (mx ex : Z) (lx : location) :
  0 <= mx ->
  finite (binary_round_aux prec emax sx mx ex lx) = true ->
  below emax (binary_round_aux prec emax sx mx ex lx) = true.
Proof.
  intros Hm. unfold binary_round_aux.
  pose proof (shr_fexp_nonneg mx ex lx Hm) as H1.
  destruct (shr_fexp prec emax mx ex lx) as [mrs' e']. cbn [fst] in H1.
  pose proof (round_nearest_even_nonneg _ (loc_of_shr_record mrs') H1) as H2.
  pose proof (shr_fexp_canonical _ e' loc_Exact H2) as H3.
  destruct (shr_fexp prec emax _ e' loc_Exact) as [mrs'' e''].
  destruct (shr_m mrs'') as [|p|p]; try reflexivity; try discriminate.
  destruct (e'' <=? emax - prec) eqn:E; [|discriminate].
  intros _. cbn [below]. apply Z.leb_le. apply Z.leb_le in E.
  cbn [Zdigits2] in H3. auto.
Qed.

Lemma of_decimal_range (neg : bool) (m e : Z) :
  finite (of_decimal neg m e) = true -> below emax (of_decimal neg m e) = true.
Proof.
  unfold of_decimal. destruct m as [|p|p]; try reflexivity.
  destruct (Z.leb_spec 0 e) as [He | He].
  - unfold binary_round. destruct (shl_align _ _ _) as [mz ez].
    apply binary_round_aux_range. lia.
  - assert (Hpow : 0 < 10 ^ (- e)) by (apply Z.pow_pos_nonneg; lia).
    unfold SFdiv_core_binary.
    set (m' := match _ with Z0 => _ | Zpos _ => _ | Zneg _ => _ end).
    assert (Hm' : 0 <= m').
    { subst m'. destruct (_ - _ - _); try lia. apply Z.shiftl_nonneg. lia. }
    pose proof (Z_div_mod m' (10 ^ (- e)) ltac:(lia)) as Hdm.
    destruct (Z.div_eucl m' (10 ^ (- e))) as [q r]. destruct Hdm as [Hq Hr].
    apply binary_round_aux_range. nia.
Qed.

Lemma parseFloat_range (s : string) :
  finite (parseFloat s) = true -> below emax (parseFloat s) = true.
Proof.
  unfold parseFloat. destruct (signed_literal s) as [[neg [|m e]]|];
    try discriminate. apply of_decimal_range.
Qed.

(** A field read with the default fallback is a Number below [2 ^ 1024]. *)
Lemma toNum_prop_range (v : store) (k : string) :
  exists x, toNum (prop v k) fallback0 = Some x /\ below emax x = true.
Proof.
  unfold toNum, prop.
  destruct (v !! k) as [s|]; cbn [nullish parse_value].
  - destruct (finite (parseFloat (remove_commas s))) eqn:E.
    + eexists. split; [reflexivity|]. now apply parseFloat_range.
    + eexists. split; reflexivity.
  - eexists. split; reflexivity.
Qed.

Lemma mul_comm (x y : float) : mul x y = mul y x.
Proof.
  destruct x as [sx|sx| |sx mx ex], y as [sy|sy| |sy my ey]; try reflexivity;
    try (now destruct sx, sy).
  unfold mul, SFmul. now rewrite xorb_comm, Pos.mul_comm, Z.add_comm.
Qed.

Lemma abs_opp (x : float) : SFabs (SFopp x) = SFabs x.
Proof. now destruct x. Qed.

Lemma binary_round_opp (p : positive) (e : Z) :
  binary_round prec emax true p e = SFopp (binary_round prec emax false p e).
Proof.
  unfold binary_round. destruct (shl_align _ _ _). apply binary_round_aux_opp.
Qed.

Lemma binary_normalize_opp (m e : Z) :
  SFabs (binary_normalize prec emax (- m) e false)
  = SFabs (binary_normalize prec emax m e false).
Proof.
  destruct m as [|p|p]; [reflexivity| |];
    change (- Z.pos p) with (Z.neg p) || change (- Z.neg p) with (Z.pos p);
    cbn [binary_normalize]; rewrite binary_round_opp; now rewrite abs_opp.
Qed.

Lemma abs_sub_comm (x y : float) : Math_abs (sub x y) = Math_abs (sub y x).
Proof.
  unfold Math_abs.
  destruct x as [sx|sx| |sx mx ex], y as [sy|sy| |sy my ey]; try reflexivity;
    try (now destruct sx, sy).
  unfold sub, SFsub. rewrite (Z.min_comm ey ex).
  rewrite <- binary_normalize_opp. f_equal. f_equal. lia.
Qed.

(** Dividing by a finite Number of magnitude at least 1 does not raise the
    magnitude. *)
Lemma div_by_const_below (x : float) (sy : bool) (my : positive) (ey b : Z) :
  below b x = true -> 1 <= Zpos (digits2_pos my) + ey -> 0 <= b <= emax - 1 ->
  below (b + 1) (div x (S754_finite sy my ey)) = true.
Proof.
  destruct x as [sx|sx| |sx mx ex]; try discriminate; [reflexivity|].
  cbn [below]. intros Hx%Z.leb_le Hy Hb. apply div_below; lia.
Qed.

(** Dividing a parsed Number by a constant of magnitude at least 2. *)
Lemma div_by_const_finite (x : float) (sy : bool) (my : positive) (ey : Z) :
  below emax x = true -> 2 <= Zpos (digits2_pos my) + ey ->
  finite (div x (S754_finite sy my ey)) = true.
Proof.
  destruct x as [sx|sx| |sx mx ex]; try discriminate; [reflexivity|].
  cbn [below]. intros Hx%Z.leb_le Hy.
  apply (below_finite (emax - 1 + 1)), div_below; unfold emax in *; lia.
Qed.

Lemma below_abs (b : Z) (x : float) : below b (Math_abs x) = below b x.
Proof. now destruct x. Qed.

Lemma toNum_null_default (v : value) (x : float) :
  toNum v None = Some x -> toNum v fallback0 = Some x.
Proof.
  unfold toNum. now destruct (finite (parse_value (nullish v (Str "")))).
Qed.



Ltac const c := let v := eval vm_compute in c in change c with v.

Ltac parsed v k x Ex Hx :=
  destruct (toNum_prop_range v k) as (x & Ex & Hx); rewrite ?Ex; cbn [num].



Lemma negb_nan (x : float) : is_nan x = false -> negb (is_nan x) = true.
Proof. now intros ->. Qed.

Ltac each_output :=
  repeat match goal with
         | |- Forall _ (_ :: _) => constructor; cbn [snd not_nan number_or_null]
         | |- Forall _ [] => constructor
         end.

Lemma pitch_no_nan (v : store) : no_nan (pitch_compute v).
Proof.
  unfold pitch_compute.
  parsed v "gradientPercent" g Eg Hg. parsed v "xCorrectionDeg" c Ec Hc.
  each_output. apply negb_nan. rewrite add_comm.
  apply add_not_nan; [now apply (below_finite emax)|].
  const (int 100).
  now apply div_by_finite_not_nan, finite_not_nan, (below_finite emax).
Qed.

Lemma ias2tas_no_nan (v : store) : no_nan (ias2tas_compute v).
Proof.
  unfold ias2tas_compute.
  parsed v "iasKt" i Ei Hi. parsed v "pressureAltFt" a Ea Ha.
  assert (Hk : is_nan (add i (mul (int 5) (div a (int 1000)))) = false).
  { apply add_not_nan; [now apply (below_finite emax)|].
    apply mul_not_nan; [reflexivity|].
    const (int 1000). apply div_by_const_finite; [exact Ha | cbn; lia]. }
  each_output; apply negb_nan; [exact Hk|].
  const (int 60). now apply div_by_finite_not_nan.
Qed.

Lemma avgTas_no_nan (v : store) : no_nan (avgTas_compute v).
Proof.
  unfold avgTas_compute.
  parsed v "tasLow" l El Hl. parsed v "tasHigh" h Eh Hh.
  assert (Hk : is_nan (div (add l h) (int 2)) = false).
  { const (int 2). apply div_by_finite_not_nan, add_not_nan;
      [|apply finite_not_nan]; now apply (below_finite emax). }
  each_output; apply negb_nan; [exact Hk|].
  const (int 60). now apply div_by_finite_not_nan.
Qed.

Lemma toNum_null_range (v : store) (k : string) (x : float) :
  toNum (prop v k) None = Some x -> below emax x = true.
Proof.
  intros E%toNum_null_default.
  destruct (toNum_prop_range v k) as (x' & E' & H').
  rewrite E in E'. now injection E' as <-.
Qed.

Lemma vvi_no_nan (v : store) : no_nan (vvi_compute v).
Proof.
  rewrite vvi_compute_value. parsed v "gradientFtPerNM" g Eg Hg.
  destruct (toNum (prop v "tasNMmin") None) as [t|] eqn:Et.
  - each_output. apply negb_nan, mul_not_nan; apply (below_finite emax); [exact Hg|].
    now apply (toNum_null_range v "tasNMmin").
  - destruct (toNum (prop v "tasNMhr") None) as [h|] eqn:Eh; each_output; [|reflexivity].
    apply negb_nan, mul_not_nan; [now apply (below_finite emax)|].
    const (int 60). apply div_by_const_finite; [|cbn; lia].
    now apply (toNum_null_range v "tasNMhr").
Qed.

Lemma leadDME_no_nan (v : store) : no_nan (leadDME_compute v).
Proof.
  unfold leadDME_compute.
  parsed v "arcingDME" d Ed Hd. parsed v "rNM" r Er Hr.
  each_output; apply negb_nan; [apply sub_not_nan | apply add_not_nan];
    try apply finite_not_nan; now apply (below_finite emax).
Qed.

Lemma timeOut_no_nan (v : store) : no_nan (timeOut_compute v).
Proof.
  unfold timeOut_compute.
  parsed v "groundSpeedKt" g Eg Hg. parsed v "customMinutes" c Ec Hc.
  assert (Hn : finite (div g (int 60)) = true).
  { const (int 60). apply div_by_const_finite; [exact Hg | cbn; lia]. }
  each_output; try (now apply negb_nan, mul_not_nan).
  destruct (truthy c); cbn [not_nan]; [|reflexivity].
  apply negb_nan, mul_not_nan; [exact Hn|]. now apply (below_finite emax).
Qed.



Ltac by_bound b := apply (below_finite b).

Lemma add_below (x y : float) (b : Z) :
  below b x = true -> below b y = true -> 0 <= b <= emax - 2 ->
  below (b + 2) (add x y) = true.
Proof. intros Hx Hy Hb. now apply add_sub_below. Qed.

Lemma sub_below (x y : float) (b : Z) :
  below b x = true -> below b y = true -> 0 <= b <= emax - 2 ->
  below (b + 2) (sub x y) = true.
Proof. intros Hx Hy Hb. now apply add_sub_below. Qed.

Lemma div_by_int_below (x : float) (n b : Z) :
  below b x = true -> 0 <= b <= emax - 1 ->
  match int n with
  | S754_finite _ m e => 1 <=? Zpos (digits2_pos m) + e
  | _ => false
  end = true ->
  below (b + 1) (div x (int n)) = true.
Proof.
  intros Hx Hb Hn. destruct (int n) as [| | |s m e]; try discriminate.
  apply div_by_const_below; auto. now apply Z.leb_le.
Qed.

Lemma gradient_finite (v : store) :
  modest v "altitudeChangeFt" -> all_finite (gradient_compute v).
Proof.
  unfold gradient_compute. intros Ha.
  destruct (toNum_default_finite (prop v "distanceNM")) as (d & -> & Hd).
  each_output. by_bound (480 + 83).
  apply guarded_quotient; [now by_bound 480 | now apply finite_not_nan | exact Ha | lia].
Qed.

Lemma climbDescend_finite (v : store) :
  modest v "altitudeToClimbFt" -> all_finite (climbDescend_compute v).
Proof.
  unfold climbDescend_compute. intros Ha.
  destruct (toNum_default_finite (prop v "climbGradientFtPerNM")) as (d & -> & Hd).
  each_output. by_bound (480 + 83).
  apply guarded_quotient; [now by_bound 480 | now apply finite_not_nan | exact Ha | lia].
Qed.

Lemma pitch_finite (v : store) :
  modest v "gradientPercent" -> modest v "xCorrectionDeg" ->
  all_finite (pitch_compute v).
Proof.
  unfold pitch_compute. intros Hg Hc. each_output. by_bound (481 + 2).
  apply add_below; [| now apply (below_mono 480); [lia|] | unfold emax; lia].
  apply (div_by_int_below _ 100 480); [exact Hg | unfold emax; lia | reflexivity].
Qed.

Lemma ias2tas_finite (v : store) :
  modest v "iasKt" -> modest v "pressureAltFt" -> all_finite (ias2tas_compute v).
Proof.
  unfold ias2tas_compute. intros Hi Ha.
  assert (Hk : below (485 + 2)
                 (add (num (toNum (prop v "iasKt") fallback0))
                    (mul (int 5)
                       (div (num (toNum (prop v "pressureAltFt") fallback0))
                          (int 1000)))) = true).
  { apply add_below; [now apply (below_mono 480); [lia|] | | unfold emax; lia].
    apply (mul_below _ _ 3 481); [reflexivity | | unfold emax, prec; lia].
    apply (div_by_int_below _ 1000 480); [exact Ha | unfold emax; lia | reflexivity]. }
  each_output; [now by_bound (485 + 2) |]. by_bound (487 + 1).
  apply (div_by_int_below _ 60); [exact Hk | unfold emax; lia | reflexivity].
Qed.

Lemma avgTas_finite (v : store) :
  modest v "tasLow" -> modest v "tasHigh" -> all_finite (avgTas_compute v).
Proof.
  unfold avgTas_compute. intros Hl Hh.
  assert (Hk : below (482 + 1)
                 (div (add (num (toNum (prop v "tasLow") fallback0))
                         (num (toNum (prop v "tasHigh") fallback0))) (int 2)) = true).
  { apply (div_by_int_below _ 2); [| unfold emax; lia | reflexivity].
    apply (add_below _ _ 480); auto. unfold emax; lia. }
  each_output; [now by_bound (482 + 1) |]. by_bound (483 + 1).
  apply (div_by_int_below _ 60); [exact Hk | unfold emax; lia | reflexivity].
Qed.

Lemma toNum_null_num (w : value) (x : float) :
  toNum w None = Some x -> num (toNum w fallback0) = x.
Proof. now intros ->%toNum_null_default. Qed.

Lemma vvi_finite (v : store) :
  modest v "gradientFtPerNM" -> modest v "tasNMmin" -> modest v "tasNMhr" ->
  all_finite (vvi_compute v).
Proof.
  rewrite vvi_compute_value. cbv zeta. intros Hg Hm Hh.
  destruct (toNum (prop v "tasNMmin") None) as [t|] eqn:Et.
  - each_output. apply toNum_null_num in Et. rewrite Et in Hm.
    by_bound (480 + 480 + 1). apply mul_below; auto. unfold emax, prec; lia.
  - destruct (toNum (prop v "tasNMhr") None) as [h|] eqn:Eh; each_output; [|reflexivity].
    apply toNum_null_num in Eh. rewrite Eh in Hh.
    by_bound (480 + 481 + 1). apply mul_below; [exact Hg | | unfold emax, prec; lia].
    apply (div_by_int_below _ 60 480); [exact Hh | unfold emax; lia | reflexivity].
Qed.

Lemma leadRadial_finite (v : store) :
  modest v "rNM" -> modest v "arcingDME" -> modest v "interceptRadial" ->
  all_finite (leadRadial_compute v).
Proof.
  unfold leadRadial_compute. intros Hr Hd Hi.
  set (r := num (toNum (prop v "rNM") fallback0)) in *.
  set (d := num (toNum (prop v "arcingDME") fallback0)) in *.
  set (i := num (toNum (prop v "interceptRadial") fallback0)) in *.
  assert (Hm : below (6 + 480 + 1) (mul (int 60) r) = true)
    by (apply mul_below; [reflexivity | exact Hr | unfold emax, prec; lia]).
  assert (Hl : below (487 + 83) (div (mul (int 60) r) (Math_max (dec 1 (-9)) d)) = true).
  { apply guarded_quotient; [now by_bound 487 | | exact Hm | lia].
    now apply finite_not_nan; by_bound 480. }
  apply (below_mono 480 570) in Hi; [|lia].
  each_output; by_bound (570 + 2); [apply sub_below | apply add_below]; auto;
    unfold emax; lia.
Qed.

Lemma leadDME_finite (v : store) :
  modest v "arcingDME" -> modest v "rNM" -> all_finite (leadDME_compute v).
Proof.
  unfold leadDME_compute. intros Hd Hr.
  each_output; by_bound (480 + 2); [apply sub_below | apply add_below]; auto;
    unfold emax; lia.
Qed.

Lemma arcDistance_finite (v : store) :
  modest v "startRadial" -> modest v "endRadial" -> modest v "arcingDME" ->
  all_finite (arcDistance_compute v).
Proof.
  unfold arcDistance_compute. intros Hs He Hd. each_output.
  by_bound (483 + 480 + 1). apply mul_below; [| exact Hd | unfold emax, prec; lia].
  apply (div_by_int_below _ 60 482); [| unfold emax; lia | reflexivity].
  rewrite below_abs. apply (sub_below _ _ 480); auto. unfold emax; lia.
Qed.

Lemma turningDistance_finite (v : store) :
  modest v "degrees" -> modest v "rNM" -> all_finite (turningDistance_compute v).
Proof.
  unfold turningDistance_compute. intros Hd Hr. each_output.
  by_bound (487 + 480 + 1). apply mul_below; [| exact Hr | unfold emax, prec; lia].
  apply (mul_below _ _ 484 2); [| reflexivity | unfold emax, prec; lia].
  apply (mul_below _ _ 481 2); [| reflexivity | unfold emax, prec; lia].
  apply (div_by_int_below _ 360 480); [exact Hd | unfold emax; lia | reflexivity].
Qed.

Lemma loss90_finite (v : store) : modest v "rNM" -> all_finite (loss90_compute v).
Proof.
  unfold loss90_compute. intros Hr. each_output.
  by_bound (483 + 2). apply sub_below; [| | unfold emax; lia].
  - apply (mul_below _ _ 2 480); [reflexivity | exact Hr | unfold emax, prec; lia].
  - apply (below_mono (1 + 480 + 1)); [lia|].
    apply mul_below; [reflexivity | exact Hr | unfold emax, prec; lia].
Qed.

Lemma timeOut_finite (v : store) :
  modest v "groundSpeedKt" -> modest v "customMinutes" ->
  all_finite (timeOut_compute v).
Proof.
  unfold timeOut_compute. intros Hg Hc.
  assert (Hn : below (480 + 1)
                 (div (num (toNum (prop v "groundSpeedKt") fallback0)) (int 60)) = true)
    by (apply (div_by_int_below _ 60 480); [exact Hg | unfold emax; lia | reflexivity]).
  each_output.
  - by_bound (481 + 2 + 1). apply mul_below; [exact Hn | reflexivity | unfold emax, prec; lia].
  - by_bound (481 + 2 + 1). apply mul_below; [exact Hn | reflexivity | unfold emax, prec; lia].
  - by_bound (481 + 1 + 1). apply mul_below; [exact Hn | reflexivity | unfold emax, prec; lia].
  - destruct (truthy _); cbn [number_or_null]; [|reflexivity].
    by_bound (481 + 480 + 1). apply mul_below; [exact Hn | exact Hc | unfold emax, prec; lia].
Qed.

(** ** Which formulas can return NaN *)

Lemma binary_round_aux_rounded (sx : bool) (mx ex : Z) (lx : location) :
  rounded (binary_round_aux prec emax sx mx ex lx) = true.
Proof.
  unfold binary_round_aux.
  destruct (shr_fexp prec emax mx ex lx) as [mrs' e'].
  destruct (shr_fexp prec emax _ e' loc_Exact) as [mrs'' e''].
  destruct (shr_m mrs'') as [|p|p]; try reflexivity.
  destruct (e'' <=? emax - prec) eqn:E; [exact E | reflexivity].
Qed.

Lemma binary_round_rounded (sx : bool) (mx : positive) (ex : Z) :
  rounded (binary_round prec emax sx mx ex) = true.
Proof.
  unfold binary_round. destruct (shl_align _ _ _) as [mz ez].
  apply binary_round_aux_rounded.
Qed.

Lemma of_decimal_rounded (neg : bool) (m e : Z) : rounded (of_decimal neg m e) = true.
Proof.
  unfold of_decimal. destruct m as [|p|p]; try reflexivity.
  destruct (0 <=? e); [apply binary_round_rounded|].
  destruct (SFdiv_core_binary _ _ _ _ _ _) as [[q e'] l].
  apply binary_round_aux_rounded.
Qed.

Lemma parseFloat_rounded (s : string) : rounded (parseFloat s) = true.
Proof.
  unfold parseFloat. destruct (signed_literal s) as [[neg [|m e]]|];
    try reflexivity. apply of_decimal_rounded.
Qed.

(** A field read with the default fallback is a Number below [2 ^ 1024],
    as rounding returns it. *)
Lemma toNum_prop_rounded (v : store) (k : string) :
  exists x, toNum (prop v k) fallback0 = Some x
            /\ below emax x = true /\ rounded x = true.
Proof.
  destruct (toNum_prop_range v k) as (x & Ex & Hx). exists x.
  split; [exact Ex|]. split; [exact Hx|].
  revert Ex. unfold toNum, prop.
  destruct (v !! k) as [s|]; cbn [nullish parse_value];
    (destruct (finite _); intros [= <-]; [apply parseFloat_rounded | reflexivity]).
Qed.

Lemma div_rounded (x y : float) : rounded (div x y) = true.
Proof.
  destruct x as [sx|sx| |sx mx ex], y as [sy|sy| |sy my ey]; try reflexivity.
  unfold div, SFdiv.
  destruct (SFdiv_core_binary _ _ _ _ _ _) as [[q e'] l].
  apply binary_round_aux_rounded.
Qed.

Lemma mul_rounded (x y : float) : rounded (mul x y) = true.
Proof.
  destruct x as [sx|sx| |sx mx ex], y as [sy|sy| |sy my ey]; try reflexivity.
  apply binary_round_aux_rounded.
Qed.

(** The product of two rounded Numbers stays below [2 ^ (b + 1)], up to the
    largest [b]. *)
Lemma mul_rounded_below (x y : float) (bx by' : Z) :
  below bx x = true -> below by' y = true ->
  rounded x = true -> rounded y = true ->
  match y with S754_finite _ _ e => e <=? 0 | _ => true end = true ->
  0 <= bx + by' <= emax - 1 ->
  below (bx + by' + 1) (mul x y) = true.
Proof.
  destruct x as [sx|sx| |sx mx ex], y as [sy|sy| |sy my ey];
    try discriminate; try reflexivity.
  cbn [below rounded]. intros Hx%Z.leb_le Hy%Z.leb_le Hrx%Z.leb_le _ Hey%Z.leb_le Hb.
  unfold mul, SFmul.
  apply binary_round_aux_below; unfold emax, prec in *; [lia | lia | | lia].
  pose proof (digits2_pos_bounds mx) as [_ Hmx].
  pose proof (digits2_pos_bounds my) as [_ Hmy].
  pose proof (Pos2Z.is_pos (digits2_pos mx)).
  pose proof (Pos2Z.is_pos (digits2_pos my)).
  assert (Zdigits2 (Zpos (mx * my))
          <= Zpos (digits2_pos mx) + Zpos (digits2_pos my)); [|lia].
  apply Zdigits2_le; [lia | lia |].
  rewrite Pos2Z.inj_mul, Z.pow_add_r by lia. nia.
Qed.

Lemma guarded_not_nan (a d : float) :
  is_nan a = false -> finite d = true ->
  is_nan (div a (Math_max (dec 1 (-9)) d)) = false.
Proof.
  intros Ha Hd. destruct (max_eps_finite d Hd) as (m & e & -> & _).
  now apply div_by_finite_not_nan.
Qed.

Lemma gradient_no_nan (v : store) : no_nan (gradient_compute v).
Proof.
  unfold gradient_compute.
  parsed v "altitudeChangeFt" a Ea Ha. parsed v "distanceNM" d Ed Hd.
  each_output. apply negb_nan, guarded_not_nan; [apply finite_not_nan|]; now by_bound emax.
Qed.

Lemma climbDescend_no_nan (v : store) : no_nan (climbDescend_compute v).
Proof.
  unfold climbDescend_compute.
  parsed v "altitudeToClimbFt" a Ea Ha. parsed v "climbGradientFtPerNM" d Ed Hd.
  each_output. apply negb_nan, guarded_not_nan; [apply finite_not_nan|]; now by_bound emax.
Qed.

Lemma leadRadial_no_nan (v : store) : no_nan (leadRadial_compute v).
Proof.
  unfold leadRadial_compute.
  parsed v "rNM" r Er Hr. parsed v "arcingDME" d Ed Hd.
  parsed v "interceptRadial" i Ei Hi.
  assert (Hl : is_nan (div (mul (int 60) r) (Math_max (dec 1 (-9)) d)) = false).
  { apply guarded_not_nan; [|now by_bound emax].
    apply mul_not_nan; [reflexivity | now by_bound emax]. }
  each_output; apply negb_nan; [apply sub_not_nan | apply add_not_nan];
    try exact Hl; now by_bound emax.
Qed.

Lemma turningDistance_no_nan (v : store) : no_nan (turningDistance_compute v).
Proof.
  unfold turningDistance_compute.
  destruct (toNum_prop_rounded v "degrees") as (d & -> & Hd & Hrd).
  parsed v "rNM" r Er Hr. cbn [num].
  each_output. apply negb_nan, mul_not_nan; [|now by_bound emax].
  by_bound (1020 + 2 + 1).
  apply mul_rounded_below;
    [| reflexivity | apply mul_rounded | reflexivity | reflexivity | unfold emax; lia].
  apply (mul_rounded_below _ _ 1017 2);
    [| reflexivity | apply div_rounded | reflexivity | reflexivity | unfold emax; lia].
  const (int 360). destruct d as [sd|sd| |sd md ed]; try discriminate; [reflexivity|].
  cbn [below] in Hd. apply Z.leb_le in Hd.
  apply (div_below _ _ _ _ _ _ 1016); [cbn; unfold emax in Hd; lia | unfold emax; lia].
Qed.

(** Overflow makes arcDistance and loss90 return NaN: the difference of two
    huge radials of opposite sign is an infinity, which times a zero DME is
    NaN; twice a huge radius and its quarter circumference are both an
    infinity, and so is their difference NaN. *)
Lemma overflow_gives_nan :
  arcDistance_compute
    (store_of [("startRadial", "1e308"); ("endRadial", "-1e308")])
  = [("arcNM", Some NaN)]
  /\ loss90_compute (store_of [("rNM", "1.5e308")]) = [("lossNM", Some NaN)].
Proof. split; vm_compute; reflexivity. Qed.

Ltac not_listed H :=
  repeat (apply elem_of_cons in H as [H | H]; [discriminate H|]);
  now apply elem_of_nil in H.

(** X5: which formulas can return NaN.  Ten formulas never do, whatever the
    store holds: gradient, pitch, ias2tas, avgTas, vvi, leadRadial,
    leadDME, turningDistance, climbDescend and timeOut.  arcDistance and
    loss90 do on some stores, where their intermediate results overflow.
    (turnRadius and vdp depend on the tangent.) *)
Theorem formulas_returning_nan (tan : float -> float) (c : calc) :
  c ∈ CALCS tan ->
  (id c ∈ [ "gradient"; "pitch"; "ias2tas"; "avgTas"; "vvi"; "leadRadial";
             "leadDME"; "turningDistance"; "climbDescend"; "timeOut" ] ->
   forall v : store, no_nan (compute c v))
  /\ (id c ∈ [ "arcDistance"; "loss90" ] ->
      exists (v : store) (k : string), (k, Some NaN) ∈ compute c v).
Proof.
  intros Hc. unfold CALCS in Hc.
  repeat (apply elem_of_cons in Hc as [-> | Hc]);
    [.. | now apply elem_of_nil in Hc];
    cbn [id compute];
    (split; intros Hid; try (exfalso; not_listed Hid); try intros v).
  - apply gradient_no_nan.
  - apply pitch_no_nan.
  - apply ias2tas_no_nan.
  - apply avgTas_no_nan.
  - apply vvi_no_nan.
  - apply leadRadial_no_nan.
  - apply leadDME_no_nan.
  - exists (store_of [("startRadial", "1e308"); ("endRadial", "-1e308")]), "arcNM".
    destruct overflow_gives_nan as [-> _]. apply list_elem_of_here.
  - apply turningDistance_no_nan.
  - exists (store_of [("rNM", "1.5e308")]), "lossNM".
    destruct overflow_gives_nan as [_ ->]. apply list_elem_of_here.
  - apply climbDescend_no_nan.
  - apply timeOut_no_nan.
Qed.

Lemma formulas_returning_nan_witness :
  (forall v : store, no_nan (turningDistance_compute v))
  /\ ("turningDistance" ∈ [ "arcDistance"; "loss90" ] ->
      exists (v : store) (k : string), (k, Some NaN) ∈ turningDistance_compute v).
Proof.
  destruct (formulas_returning_nan (fun x => x)
              (Calc "turningDistance" "10) Turning Distance for N°"
                 [ fld "degrees" "Turn Amount (deg)";
                   fld "rNM" "Turn Radius r (NM)" ]
                 turningDistance_compute
                 [ Output "turnDistNM" "Turning Distance (NM)" ]
                 (Some "Turn Distance (NM) = (Degrees ÷ 360) × 2πr")))
    as [Hn Hy].
  - unfold CALCS. do 9 apply list_elem_of_further. apply list_elem_of_here.
  - split; [|exact Hy]. apply Hn. cbn [id].
    do 7 apply list_elem_of_further. apply list_elem_of_here.
Defined.

(** ** Finite outputs *)

(** X6: on modest inputs no output overflows.  For every formula but
    turnRadius and vdp (which go through the tangent), if the text of each
    declared field parses to a Number smaller than [2 ^ 480] in magnitude,
    every output is a finite Number or [null]. *)
Theorem modest_inputs_give_finite_outputs
    (tan : float -> float) (c : calc) (v : store) :
  c ∈ CALCS tan -> id c <> "turnRadius" -> id c <> "vdp" ->
  (forall f : field, f ∈ fields c -> modest v (key f)) ->
  all_finite (compute c v).
Proof.
  intros Hc Ht Hv Hm. apply Forall_forall in Hm. unfold CALCS in Hc.
  repeat (apply elem_of_cons in Hc as [-> | Hc]);
    [.. | now apply elem_of_nil in Hc];
    cbn [id fields compute] in *; try (now destruct Ht); try (now destruct Hv);
    repeat match goal with
           | H : Forall _ (_ :: _) |- _ => apply Forall_cons in H as [? H]
           | H : Forall _ [] |- _ => clear H
           end;
    unfold fld in *; cbn [key] in *.
  - now apply gradient_finite.
  - now apply pitch_finite.
  - now apply ias2tas_finite.
  - now apply avgTas_finite.
  - now apply vvi_finite.
  - now apply leadRadial_finite.
  - now apply leadDME_finite.
  - now apply arcDistance_finite.
  - now apply turningDistance_finite.
  - now apply loss90_finite.
  - now apply climbDescend_finite.
  - now apply timeOut_finite.
Qed.

Lemma modest_inputs_give_finite_outputs_witness :
  all_finite
    (leadRadial_compute
       (store_of [("rNM", "2.5"); ("arcingDME", "0"); ("interceptRadial", "270")])).
Proof.
  apply (modest_inputs_give_finite_outputs (fun x => x)
           (Calc "leadRadial" "7) Lead Radial (deg)"
              [ fld "rNM" "Turn Radius r (NM)";
                fld "arcingDME" "Arcing DME (NM)";
                fld "interceptRadial" "Intercept Radial (deg)" ]
              leadRadial_compute
              [ Output "leadDegMinus" "Lead Radial (−) deg";
                Output "leadDegPlus" "Lead Radial (+) deg" ]
              (Some "Lead (°) = (60 × r) ÷ Arcing DME"))).
  - unfold CALCS. do 6 apply list_elem_of_further. apply list_elem_of_here.
  - cbn [id]. discriminate.
  - cbn [id]. discriminate.
  - intros f Hf. cbn [fields] in Hf.
    repeat (apply elem_of_cons in Hf as [-> | Hf]; [vm_compute; reflexivity|]).
    now apply elem_of_nil in Hf.
Defined.

(** ** Signs through the guarded quotients *)

Lemma binary_round_aux_negb (s : bool) (mx ex : Z) (lx : location) :
  binary_round_aux prec emax (negb s) mx ex lx
  = SFopp (binary_round_aux prec emax s mx ex lx).
Proof.
  destruct s; cbn [negb]; rewrite binary_round_aux_opp; [|reflexivity].
  destruct (binary_round_aux prec emax false mx ex lx) as [[]|[]| |[]];
    reflexivity.
Qed.

Lemma div_opp_l (x y : float) : div (SFopp x) y = SFopp (div x y).
Proof.
  destruct x as [sx|sx| |sx mx ex], y as [sy|sy| |sy my ey]; try reflexivity;
    cbn [SFopp div SFdiv]; rewrite <- ?negb_xorb_l; try reflexivity.
  destruct (SFdiv_core_binary _ _ _ _ _ _) as [[q e'] l].
  apply binary_round_aux_negb.
Qed.

Lemma toNum_minus (s : string) (x : float) (fb : result) :
  unsigned_head (remove_commas s) = true -> toNum (Str s) None = Some x ->
  toNum (Str (String "-" s)) fb = Some (SFopp x).
Proof.
  intros Hs. unfold toNum. cbn [nullish parse_value remove_commas].
  change (Ascii.eqb "-" ",") with false. cbv iota.
  destruct (parseFloat_signs _ Hs) as [-> _]. rewrite finite_opp.
  destruct (finite (parseFloat (remove_commas s))); [|discriminate].
  now intros [= <-].
Qed.

(** X7: a minus sign before the altitude negates the quotient.  In
    gradient and in climbDescend, when the altitude text (not itself
    starting with white space or a sign) parses to a finite Number,
    typing a minus sign before it turns the output [q] into [-q]: a
    descent mirrors the climb. *)
Theorem negated_altitude_negates_quotient (v : store) (s : string) (x : float) :
  unsigned_head (remove_commas s) = true -> toNum (Str s) None = Some x ->
  (exists q : float,
      gradient_compute (setField "altitudeChangeFt" s v)
      = [("gradientFtPerNM", Some q)]
      /\ gradient_compute (setField "altitudeChangeFt" (String "-" s) v)
         = [("gradientFtPerNM", Some (SFopp q))])
  /\ (exists q : float,
         climbDescend_compute (setField "altitudeToClimbFt" s v)
         = [("nm", Some q)]
         /\ climbDescend_compute (setField "altitudeToClimbFt" (String "-" s) v)
            = [("nm", Some (SFopp q))]).
Proof.
  intros Hs Hx.
  pose proof (toNum_minus s x fallback0 Hs Hx) as Hm.
  pose proof (toNum_null_default _ _ Hx) as Hx0.
  unfold gradient_compute, climbDescend_compute, setField, prop.
  rewrite !lookup_insert_eq, !lookup_insert_ne by discriminate.
  rewrite Hm, Hx0. cbn [num].
  split; eexists; (split; [reflexivity|]); now rewrite div_opp_l.
Qed.

Lemma negated_altitude_negates_quotient_witness :
  (exists q : float,
      gradient_compute
        (setField "altitudeChangeFt" "1,500" (store_of [("distanceNM", "5")]))
      = [("gradientFtPerNM", Some q)]
      /\ gradient_compute
           (setField "altitudeChangeFt" (String "-" "1,500")
              (store_of [("distanceNM", "5")]))
         = [("gradientFtPerNM", Some (SFopp q))])
  /\ (exists q : float,
         climbDescend_compute
           (setField "altitudeToClimbFt" "1,500" (store_of [("distanceNM", "5")]))
         = [("nm", Some q)]
         /\ climbDescend_compute
              (setField "altitudeToClimbFt" (String "-" "1,500")
                 (store_of [("distanceNM", "5")]))
            = [("nm", Some (SFopp q))]).
Proof.
  apply (negated_altitude_negates_quotient _ "1,500" (int 1500)); vm_compute; reflexivity.
Defined.

(** ** The single-file table against the screen's *)

Lemma App_turnRadiusNM_same (tan : float -> float) (a b : value) :
  AppCalcs.turnRadiusNM tan a b = turnRadiusNM tan a b.
Proof. unfold AppCalcs.turnRadiusNM, turnRadiusNM. now rewrite !App_toNum_same. Qed.

Ltac single_file_unfold :=
  unfold AppCalcs.gradient_compute, AppCalcs.pitch_compute,
    AppCalcs.ias2tas_compute, AppCalcs.avgTas_compute,
    AppCalcs.turnRadius_compute, AppCalcs.leadRadial_compute,
    AppCalcs.leadDME_compute, AppCalcs.arcDistance_compute,
    AppCalcs.turningDistance_compute, AppCalcs.loss90_compute,
    AppCalcs.climbDescend_compute, AppCalcs.vdp_compute,
    AppCalcs.ftPerNMFromDegrees.

(** X8: every formula of the single-file application other than vvi is in
    the screen's table under the same identifier, with the same title, the
    same field keys and defaults, the same outputs, and a compute that
    returns the same object on every store; the two vvi computes return the
    same object on every store whose gradient text parses to a finite
    Number. *)
Theorem single_file_formulas_agree (tan : float -> float) (c : calc) :
  c ∈ AppCalcs.CALCS tan ->
  exists c' : calc,
    find_calc tan (id c) = Some c'
    /\ title c' = title c
    /\ map key (fields c') = map key (fields c)
    /\ map default (fields c') = map default (fields c)
    /\ outputs c' = outputs c
    /\ forall v : store,
         id c <> "vvi" \/ toNum (prop v "gradientFtPerNM") None <> None ->
         compute c' v = compute c v.
Proof.
  intros Hc. unfold AppCalcs.CALCS in Hc.
  repeat (apply elem_of_cons in Hc as [-> | Hc]);
    [.. | now apply elem_of_nil in Hc];
    (eexists; split;
     [unfold find_calc, CALCS;
      cbn [find id String.eqb Ascii.eqb Bool.eqb]; reflexivity|]);
    cbn [title fields outputs compute id];
    (do 4 (split; [reflexivity|])); intros v Hv;
    try (single_file_unfold; rewrite ?App_toNum_same, ?App_turnRadiusNM_same;
         reflexivity).
  destruct Hv as [Hv | Hv]; [now destruct Hv|].
  rewrite vvi_compute_value, App_vvi_compute_value. cbv zeta.
  destruct (toNum (prop v "gradientFtPerNM") None) as [g|] eqn:Eg; [|now destruct Hv].
  now rewrite (toNum_null_num _ _ Eg).
Qed.

Lemma single_file_formulas_agree_witness :
  exists c' : calc,
    find_calc (fun x => x) "loss90" = Some c'
    /\ title c' = "11) Distance Lost to a 90° Turn"
    /\ map key (fields c') = ["rNM"]
    /\ map default (fields c') = [None]
    /\ outputs c' = [ Output "lossNM" "Distance Lost (NM)" ]
    /\ forall v : store,
         "loss90" <> "vvi" \/ toNum (prop v "gradientFtPerNM") None <> None ->
         compute c' v = AppCalcs.loss90_compute v.
Proof.
  apply (single_file_formulas_agree (fun x => x)
           (Calc "loss90" "11) Distance Lost to a 90° Turn"
              [ fld "rNM" "Turn Radius r (NM)" ]
              AppCalcs.loss90_compute
              [ Output "lossNM" "Distance Lost (NM)" ]
              None)).
  unfold AppCalcs.CALCS. do 10 apply list_elem_of_further. apply list_elem_of_here.
Defined.

(** ** Symmetries and compositions of the formulas *)

(** X9: avgTas is symmetric in its two inputs: a store with the two TAS
    texts exchanged gives the same outputs. *)
Theorem avgTas_symmetric (v v' : store) :
  v' !! "tasLow" = v !! "tasHigh" -> v' !! "tasHigh" = v !! "tasLow" ->
  avgTas_compute v' = avgTas_compute v.
Proof.
  intros Hl Hh. unfold avgTas_compute, prop. rewrite Hl, Hh.
  now rewrite add_comm.
Qed.

Lemma avgTas_symmetric_witness :
  avgTas_compute (store_of [("tasLow", "250"); ("tasHigh", "180")])
  = avgTas_compute (store_of [("tasLow", "180"); ("tasHigh", "250")]).
Proof. apply avgTas_symmetric; reflexivity. Defined.

(** X10: arcDistance is symmetric in the two radials: exchanging the start
    and end radial texts, with the same arcing DME text, gives the same
    arc. *)
Theorem arcDistance_symmetric (v v' : store) :
  v' !! "startRadial" = v !! "endRadial" ->
  v' !! "endRadial" = v !! "startRadial" ->
  v' !! "arcingDME" = v !! "arcingDME" ->
  arcDistance_compute v' = arcDistance_compute v.
Proof.
  intros Hs He Hd. unfold arcDistance_compute, prop. rewrite Hs, He, Hd.
  now rewrite abs_sub_comm.
Qed.

Lemma arcDistance_symmetric_witness :
  arcDistance_compute
    (store_of [("startRadial", "090"); ("endRadial", "045"); ("arcingDME", "12")])
  = arcDistance_compute
      (store_of [("startRadial", "045"); ("endRadial", "090"); ("arcingDME", "12")]).
Proof. apply arcDistance_symmetric; reflexivity. Defined.

(** X11: in vvi the TAS in NM/min takes precedence: when its text parses to
    a finite Number, the output is gradient times that Number and the
    NM/hr text is ignored, whatever it is. *)
Theorem vvi_prefers_tas_per_minute (v : store) (t : float) (hr : string) :
  toNum (prop v "tasNMmin") None = Some t ->
  vvi_compute v
  = [("vviFPM", Some (mul (num (toNum (prop v "gradientFtPerNM") fallback0)) t))]
  /\ vvi_compute (setField "tasNMhr" hr v) = vvi_compute v.
Proof.
  intros Ht.
  assert (Ht' : toNum (prop (setField "tasNMhr" hr v) "tasNMmin") None = Some t).
  { unfold prop, setField. rewrite lookup_insert_ne by discriminate. exact Ht. }
  assert (Hg : prop (setField "tasNMhr" hr v) "gradientFtPerNM"
               = prop v "gradientFtPerNM").
  { unfold prop, setField. now rewrite lookup_insert_ne by discriminate. }
  rewrite !vvi_compute_value. cbv zeta. now rewrite Ht, Ht', Hg.
Qed.

Lemma vvi_prefers_tas_per_minute_witness :
  vvi_compute (store_of [("gradientFtPerNM", "300"); ("tasNMmin", "2")])
  = [("vviFPM",
      Some (mul (num (toNum (prop (store_of [("gradientFtPerNM", "300");
                                              ("tasNMmin", "2")])
                               "gradientFtPerNM") fallback0)) (int 2)))]
  /\ vvi_compute
       (setField "tasNMhr" "480"
          (store_of [("gradientFtPerNM", "300"); ("tasNMmin", "2")]))
     = vvi_compute (store_of [("gradientFtPerNM", "300"); ("tasNMmin", "2")]).
Proof. apply vvi_prefers_tas_per_minute. vm_compute. reflexivity. Defined.

(** X12: the distance lost to a 90 degree turn is twice the radius minus the
    turning distance for 90 degrees at that radius: on a store whose turn
    amount parses to 90, loss90 returns [2 * r - d] for the [d] that
    turningDistance returns. *)
Theorem loss90_from_turningDistance (v : store) :
  toNum (prop v "degrees") fallback0 = Some (int 90) ->
  exists d : float,
    turningDistance_compute v = [("turnDistNM", Some d)]
    /\ loss90_compute v
       = [("lossNM", Some (sub (mul (int 2) (num (toNum (prop v "rNM") fallback0))) d))].
Proof.
  intros Hd. unfold turningDistance_compute, loss90_compute. rewrite Hd.
  eexists. split; reflexivity.
Qed.

Lemma loss90_from_turningDistance_witness :
  exists d : float,
    turningDistance_compute (store_of [("degrees", "90"); ("rNM", "2")])
    = [("turnDistNM", Some d)]
    /\ loss90_compute (store_of [("degrees", "90"); ("rNM", "2")])
       = [("lossNM",
           Some (sub (mul (int 2)
                        (num (toNum (prop (store_of [("degrees", "90"); ("rNM", "2")])
                                       "rNM") fallback0))) d))].
Proof. apply loss90_from_turningDistance. vm_compute. reflexivity. Defined.

(** ** The store and the table *)

(** X13: typing [val] into the field of key [k] changes the text shown in
    every field of that key, in whichever formula it is declared, to
    [val], and leaves the text shown in every other field as it was. *)
Theorem typing_reaches_fields_of_key (values : store) (k val : string) (f : field) :
  field_text (handle values (Typed k val)) f
  = if String.eqb (key f) k then val else field_text values f.
Proof.
  cbn [handle]. unfold field_text, prop, setField.
  destruct (String.eqb_spec (key f) k) as [-> | Hk].
  - now rewrite lookup_insert_eq.
  - now rewrite lookup_insert_ne by congruence.
Qed.

Lemma field_text_nullish (v1 v2 : store) (f : field) :
  field_text v1 f = field_text v2 f ->
  nullish (prop v1 (key f)) (Str "") = nullish (prop v2 (key f)) (Str "").
Proof.
  unfold field_text, prop.
  destruct (v1 !! key f), (v2 !! key f); cbn [nullish]; congruence.
Qed.

Lemma toNum_same_text (v1 v2 : store) (k : string) (fb : result) :
  nullish (prop v1 k) (Str "") = nullish (prop v2 k) (Str "") ->
  toNum (prop v1 k) fb = toNum (prop v2 k) fb.
Proof. unfold toNum. now intros ->. Qed.

(** Rewrites every parse of a property of [v1] into the same parse on
    [v2], given that the two stores show the same text under the key. *)
Ltac same_texts :=
  repeat match goal with
         | H : nullish (prop ?v1 ?k) _ = nullish (prop ?v2 ?k) _ |- _ =>
             rewrite !(toNum_same_text v1 v2 k _ H); clear H
         end.

(** The outputs of a formula depend on the texts shown in its declared
    fields only: a missing key counts as the empty text. *)
Lemma compute_reads_texts (tan : float -> float) (c : calc) (v1 v2 : store) :
  c ∈ CALCS tan ->
  (forall f : field, f ∈ fields c -> field_text v1 f = field_text v2 f) ->
  compute c v1 = compute c v2.
Proof.
  intros Hc Hagree.
  assert (Hn : Forall (fun f => nullish (prop v1 (key f)) (Str "")
                                = nullish (prop v2 (key f)) (Str "")) (fields c)).
  { apply Forall_forall. intros f Hf. now apply field_text_nullish, Hagree. }
  clear Hagree. unfold CALCS in Hc.
  repeat (apply elem_of_cons in Hc as [-> | Hc]);
    [.. | now apply elem_of_nil in Hc];
    cbn [fields compute] in *;
    repeat match goal with
           | H : Forall _ (_ :: _) |- _ =>
               apply Forall_cons in H as [? H]
           | H : Forall _ [] |- _ => clear H
           end;
    unfold fld in *; cbn [key] in *;
    unfold gradient_compute, pitch_compute, ias2tas_compute, avgTas_compute,
      vvi_compute, turnRadius_compute, leadRadial_compute, leadDME_compute,
      arcDistance_compute, turningDistance_compute, loss90_compute,
      climbDescend_compute, vdp_compute, timeOut_compute;
    same_texts; reflexivity.
Qed.

Lemma run_app (evs evs' : list event) (values : store) :
  run (evs ++ evs') values = run evs' (run evs values).
Proof. apply fold_left_app. Qed.

Lemma fold_insert_lookup
    (P : option string -> Prop) (l : list field) (v0 : store) (k : string) :
  P (v0 !! k) ->
  Forall (fun f => key f = k -> P (Some (default_text f))) l ->
  P (fold_left (fun v f => <[key f := default_text f]> v) l v0 !! k).
Proof.
  revert v0. induction l as [|f l IH]; intros v0 H0 Hl; [exact H0|].
  apply Forall_cons in Hl as [Hf Hl]. cbn [fold_left]. apply IH; [|exact Hl].
  destruct (decide (key f = k)) as [E | E].
  - rewrite <- E at 1. rewrite lookup_insert_eq. auto.
  - now rewrite lookup_insert_ne.
Qed.

Lemma initial_values_declared (tan : float -> float) :
  initial_values tan
  = fold_left (fun v f => <[key f := default_text f]> v) (declared_fields tan) ∅.
Proof.
  unfold initial_values, declared_fields.
  generalize (∅ : store). induction (CALCS tan) as [|c l IH]; intros v0; [reflexivity|].
  cbn [fold_left flat_map]. now rewrite fold_left_app, IH.
Qed.

(** At startup every key shows the empty text, but [bankDeg]. *)
Lemma initial_values_blank (tan : float -> float) (k : string) :
  k <> "bankDeg" ->
  nullish (prop (initial_values tan) k) (Str "") = Str "".
Proof.
  intros Hk. rewrite initial_values_declared. unfold prop.
  apply (fold_insert_lookup
           (fun o => nullish match o with Some s => Str s | None => Undefined end
                       (Str "") = Str "")).
  - now rewrite lookup_empty.
  - unfold declared_fields, CALCS. cbn [flat_map fields app].
    repeat constructor; cbn [key fld default_text default]; congruence.
Qed.

(** Two stores that show the same text under every key but [bankDeg] still
    do after the same event. *)
Lemma handle_same_texts (v1 v2 : store) (e : event) :
  (forall k, k <> "bankDeg" ->
             nullish (prop v1 k) (Str "") = nullish (prop v2 k) (Str "")) ->
  forall k, k <> "bankDeg" ->
            nullish (prop (handle v1 e) k) (Str "")
            = nullish (prop (handle v2 e) k) (Str "").
Proof.
  intros H k Hk. destruct e as [k' val|]; cbn [handle]; [|reflexivity].
  unfold setField, prop. destruct (decide (k' = k)) as [-> | E].
  - now rewrite !lookup_insert_eq.
  - rewrite !lookup_insert_ne by exact E. now apply H.
Qed.

Lemma run_same_texts (evs : list event) (v1 v2 : store) :
  (forall k, k <> "bankDeg" ->
             nullish (prop v1 k) (Str "") = nullish (prop v2 k) (Str "")) ->
  forall k, k <> "bankDeg" ->
            nullish (prop (run evs v1) k) (Str "")
            = nullish (prop (run evs v2) k) (Str "").
Proof.
  revert v1 v2. induction evs as [|e evs IH]; intros v1 v2 H; [exact H|].
  cbn [run fold_left]. apply IH. now apply handle_same_texts.
Qed.

Lemma nullish_field_text (v1 v2 : store) (f : field) :
  nullish (prop v1 (key f)) (Str "") = nullish (prop v2 (key f)) (Str "") ->
  field_text v1 f = field_text v2 f.
Proof. unfold field_text. now intros ->. Qed.

(** X14: the "Clear All Inputs" button acts as a restart on every formula
    but turnRadius: whatever was typed before it, and whatever is typed
    after it, the section of each other formula (the texts in its inputs
    and in its pills) is what it is when the same is typed from the startup
    store.  (turnRadius differs, its bank angle of 30 being a default of
    the startup store only.) *)
Theorem clear_acts_as_restart
    (tan : float -> float) (Number_toString : float -> string)
    (c : calc) (values : store) (before after : list event) :
  c ∈ CALCS tan -> id c <> "turnRadius" ->
  section_of Number_toString c (run (before ++ ClearAll :: after) values)
  = section_of Number_toString c (run after (initial_values tan)).
Proof.
  intros Hc Hid. rewrite run_app.
  change (run (ClearAll :: after) (run before values)) with (run after ∅).
  assert (Hf : forall f, f ∈ fields c ->
                 field_text (run after ∅) f
                 = field_text (run after (initial_values tan)) f).
  { intros f Hf. apply nullish_field_text, run_same_texts.
    - intros k Hk. rewrite (initial_values_blank tan k Hk).
      unfold prop. now rewrite lookup_empty.
    - intros Hk. revert Hf Hid. unfold CALCS in Hc.
      repeat (apply elem_of_cons in Hc as [-> | Hc]);
        [.. | now apply elem_of_nil in Hc];
        cbn [fields id]; intros Hf Hid; try (now destruct Hid);
        repeat (apply elem_of_cons in Hf as [-> | Hf]; [discriminate Hk|]);
        now apply elem_of_nil in Hf. }
  unfold section_of. rewrite (compute_reads_texts tan c _ _ Hc Hf).
  f_equal. apply map_ext_in. intros f Hin. f_equal.
  apply Hf. now apply list_elem_of_In.
Qed.

Lemma clear_acts_as_restart_witness :
  section_of (fun _ => "")
    (Calc "leadDME" "8) Lead DME (NM)"
       [ fld "arcingDME" "Arcing DME (NM)";
         fld "rNM" "Turn Radius r (NM)" ]
       leadDME_compute
       [ Output "inbound" "Lead DME inbound (NM)";
         Output "outbound" "Lead DME outbound (NM)" ]
       (Some "Lead DME = Arcing DME ± r"))
    (run ([Typed "arcingDME" "99"; Typed "bankDeg" "45"]
          ++ ClearAll :: [Typed "rNM" "2"; Typed "arcingDME" "12"])
       (store_of [("rNM", "7")]))
  = section_of (fun _ => "")
      (Calc "leadDME" "8) Lead DME (NM)"
         [ fld "arcingDME" "Arcing DME (NM)";
           fld "rNM" "Turn Radius r (NM)" ]
         leadDME_compute
         [ Output "inbound" "Lead DME inbound (NM)";
           Output "outbound" "Lead DME outbound (NM)" ]
         (Some "Lead DME = Arcing DME ± r"))
      (run [Typed "rNM" "2"; Typed "arcingDME" "12"] (initial_values (fun x => x))).
Proof.
  apply (clear_acts_as_restart (fun x => x) (fun _ => "")).
  - unfold CALCS. do 7 apply list_elem_of_further. apply list_elem_of_here.
  - cbn [id]. discriminate.
Defined.

(** X15: in both tables every formula returns an object with exactly the
    properties its [outputs] declare, in that order, on every store: no
    label is ever shown for a property that is missing. *)
Theorem outputs_are_declared (tan : float -> float) (c : calc) (v : store) :
  c ∈ CALCS tan \/ c ∈ AppCalcs.CALCS tan ->
  map fst (compute c v) = map out_key (outputs c).
Proof.
  intros [Hc | Hc]; [unfold CALCS in Hc | unfold AppCalcs.CALCS in Hc];
    repeat (apply elem_of_cons in Hc as [-> | Hc]);
    [.. | now apply elem_of_nil in Hc | | | | | | | | | | | | | |
     now apply elem_of_nil in Hc];
    cbn [compute outputs]; try reflexivity.
  - rewrite vvi_compute_value. cbv zeta.
    destruct (toNum (prop v "tasNMmin") None);
      [|destruct (toNum (prop v "tasNMhr") None)]; reflexivity.
  - rewrite App_vvi_compute_value.
    destruct (toNum (prop v "gradientFtPerNM") None); [|reflexivity].
    destruct (toNum (prop v "tasNMmin") None);
      [|destruct (toNum (prop v "tasNMhr") None)]; reflexivity.
Qed.

Lemma outputs_are_declared_witness :
  map fst (timeOut_compute (store_of [("groundSpeedKt", "120")]))
  = ["dist3min"; "dist2min"; "dist1min"; "distCustom"].
Proof.
  apply (outputs_are_declared (fun x => x)
           (Calc "timeOut" "14) Distance for 3-2-1 (and Custom) Minutes Out"
              [ fld "groundSpeedKt" "Groundspeed (kt)";
                fld "customMinutes" "Custom Minutes Out (optional)" ]
              timeOut_compute
              [ Output "dist3min" "3 min out (NM)";
                Output "dist2min" "2 min out (NM)";
                Output "dist1min" "1 min out (NM)";
                Output "distCustom" "Custom min out (NM)" ]
              (Some "Distance (NM) = (Groundspeed ÷ 60) × Time (min)"))).
  left. unfold CALCS. do 13 apply list_elem_of_further. apply list_elem_of_here.
Defined.

(** ** The pills *)

(** The digits [toFixed] prints: a non-empty run of digits, the dot, and
    exactly three digits, which together read as [n]. *)
Lemma fixed_digits_split (n : Z) :
  0 <= n ->
  exists a b : string,
    fixed_digits n = a ++ "." ++ b
    /\ all_digits a = true /\ all_digits b = true
    /\ (1 <= String.length a)%nat /\ String.length b = 3%nat
    /\ digits_value 0 (a ++ b) = n.
Proof.
  intros Hn. unfold fixed_digits.
  destruct (numeral_value (Z.to_N n)) as (Hd & Hv & Hl).
  rewrite Z2N.id in Hv by exact Hn.
  set (m0 := numeral (Z.to_N n)) in *.
  set (k0 := String.length m0) in *.
  assert (Hpad : exists m : string,
             (if (k0 <=? 3)%nat then (zeros (3 + 1 - k0) ++ m0, (3 + 1)%nat)
              else (m0, k0)) = (m, String.length m)
             /\ all_digits m = true /\ digits_value 0 m = n
             /\ (4 <= String.length m)%nat).
  { destruct (Nat.leb_spec k0 3) as [Hk | Hk].
    - destruct (zeros_digits (3 + 1 - k0) 0) as (Hz1 & Hz2 & Hz3).
      exists (zeros (3 + 1 - k0) ++ m0).
      assert (Hlen : String.length (zeros (3 + 1 - k0) ++ m0) = 4%nat).
      { rewrite length_app, Hz2. fold k0. lia. }
      rewrite Hlen. split; [reflexivity|].
      split; [now rewrite all_digits_app, Hz1, Hd|].
      split; [|lia]. now rewrite digits_value_app, Hz3.
    - exists m0. repeat split; auto; fold k0; lia. }
  destruct Hpad as (m & -> & Hm & Hmv & Hml).
  destruct (substring_split m (String.length m - 3) ltac:(lia)) as [Hs Hsl].
  replace (String.length m - (String.length m - 3))%nat with 3%nat in Hs by lia.
  set (a := String.substring 0 (String.length m - 3) m) in *.
  set (b := String.substring (String.length m - 3) 3 m) in *.
  exists a, b. split; [reflexivity|].
  pose proof Hm as Hab. rewrite <- Hs, all_digits_app in Hab.
  apply andb_true_iff in Hab as [Ha Hb].
  assert (Hlb : String.length b = 3%nat).
  { pose proof (f_equal String.length Hs) as E. rewrite length_app, Hsl in E. lia. }
  repeat split; auto; [lia | now rewrite Hs].
Qed.

(** What [parseFloat] finds in the digits [toFixed] prints. *)
Lemma unsigned_literal_fixed (a b : string) :
  all_digits a = true -> all_digits b = true ->
  (1 <= String.length a)%nat -> String.length b = 3%nat ->
  remove_commas (a ++ "." ++ b) = a ++ "." ++ b
  /\ unsigned_head (a ++ "." ++ b) = true
  /\ unsigned_literal (a ++ "." ++ b)
     = Some (LitDecimal (digits_value 0 (a ++ b)) (-3)).
Proof.
  intros Ha Hb Hla Hlb.
  split.
  { rewrite !remove_commas_app, (remove_commas_digits a Ha), (remove_commas_digits b Hb).
    reflexivity. }
  assert (Hr1 : read_digits 0 0 (a ++ "." ++ b)
                = (digits_value 0 a, Z.of_nat (String.length a), String "." b)).
  { rewrite read_digits_all by exact Ha. reflexivity. }
  assert (Hr2 : read_digits (digits_value 0 a) 0 b
                = (digits_value 0 (a ++ b), 3, "")).
  { rewrite <- (append_nil_r b) at 1. rewrite read_digits_all by exact Hb.
    rewrite Hlb, digits_value_app by exact Ha. reflexivity. }
  destruct a as [|c a']; [cbn in Hla; lia|].
  cbn [all_digits] in Ha. destruct (digit_of c) eqn:Ec; [|discriminate].
  destruct (digit_not_special c) as (_ & Hw & Hp & Hm & HI); [congruence|].
  split.
  { rewrite append_cons. cbn [unsigned_head]. now rewrite Hw, Hp, Hm. }
  unfold unsigned_literal.
  assert (HInf : String.prefix "Infinity" (String c a' ++ "." ++ b) = false).
  { rewrite append_cons. cbn [String.prefix].
    destruct (ascii_dec "I" c) as [E|]; [now elim HI | reflexivity]. }
  rewrite HInf, Hr1, Hr2.
  assert (Hni : (Z.of_nat (String.length (String c a')) =? 0) = false).
  { apply Z.eqb_neq. cbn [String.length]. lia. }
  rewrite Hni. reflexivity.
Qed.

(** A thousandths count below [10 ^ 24 + 1] reads as a finite Number. *)
Lemma of_decimal_thousandths (neg : bool) (n : Z) :
  0 <= n <= 10 ^ 24 -> below 72 (of_decimal neg n (-3)) = true.
Proof.
  intros Hn. destruct n as [|p|p]; [reflexivity | | lia].
  assert (E : of_decimal neg (Zpos p) (-3)
              = div (S754_finite neg p 0) (S754_finite false 1000 0)).
  { unfold of_decimal, div, SFdiv. now rewrite xorb_false_r. }
  rewrite E. apply (div_below _ _ _ _ _ _ 71); [|unfold emax; lia].
  pose proof (digits2_pos_bounds p) as [Hlo _].
  assert (Zpos (digits2_pos p) <= 80); [|cbn; lia].
  destruct (Z_le_gt_dec (Zpos (digits2_pos p)) 80) as [H | H]; [exact H|].
  assert (2 ^ 80 <= 2 ^ (Zpos (digits2_pos p) - 1))
    by (apply Z.pow_le_mono_r; lia).
  assert (10 ^ 24 < 2 ^ 80) by reflexivity. lia.
Qed.

(** The thousandths of a finite Number below 1e21. *)
Lemma thousandths_range (x : float) :
  at_least_1e21 x = false -> 0 <= thousandths x <= 10 ^ 24.
Proof.
  destruct x as [s|s| |s m e]; cbn [at_least_1e21 thousandths]; try lia.
  destruct (Z.leb_spec 0 e) as [He | He]; intros H%Z.leb_gt.
  - assert (0 < 2 ^ e) by (apply Z.pow_pos_nonneg; lia).
    change (10 ^ 24) with (10 ^ 21 * 1000). nia.
  - assert (Hp : 0 < 2 ^ (- e)) by (apply Z.pow_pos_nonneg; lia).
    split; [apply Z.div_pos; lia|].
    assert (Hlt : (2 * (Zpos m * 1000) + 2 ^ (- e)) / (2 * 2 ^ (- e)) < 10 ^ 24 + 1);
      [|lia].
    apply Z.div_lt_upper_bound; [lia|].
    change (10 ^ 24) with (10 ^ 21 * 1000). nia.
Qed.

(** [toFixed] rounds to the nearest thousandth, a tie upwards: the count
    [n] of a Number [m * 2 ^ e] with [e < 0] has
    [n - 1/2 <= 1000 * m * 2 ^ e < n + 1/2]. *)
Lemma thousandths_nearest (s : bool) (m : positive) (e : Z) :
  e < 0 ->
  let n := thousandths (S754_finite s m e) in
  (2 * n - 1) * 2 ^ (- e) <= 2 * (1000 * Zpos m) < (2 * n + 1) * 2 ^ (- e).
Proof.
  intros He. cbn [thousandths]. destruct (Z.leb_spec 0 e) as [H | _]; [lia|].
  assert (Hp : 0 < 2 ^ (- e)) by (apply Z.pow_pos_nonneg; lia).
  pose proof (Z_div_mod_eq_full (2 * (Zpos m * 1000) + 2 ^ (- e)) (2 * 2 ^ (- e))) as E.
  pose proof (Z.mod_pos_bound (2 * (Zpos m * 1000) + 2 ^ (- e)) (2 * 2 ^ (- e))
                ltac:(lia)) as Hm.
  cbv zeta. nia.
Qed.

Section Pills.

Variable Number_toString : float -> string.

(** What [toFixed(3)] prints for a finite Number below 1e21, and what
    [toNum] reads in it. *)
Lemma toFixed3_parses_back (x : float) (fb : result) :
  finite x = true -> at_least_1e21 x = false ->
  (exists a b : string,
      toFixed3 Number_toString x = (if negative x then "-" else "") ++ a ++ "." ++ b
      /\ all_digits a = true /\ all_digits b = true
      /\ (1 <= String.length a)%nat /\ String.length b = 3%nat
      /\ digits_value 0 (a ++ b) = thousandths x)
  /\ toNum (Str (toFixed3 Number_toString x)) fb
     = Some (of_decimal (negative x) (thousandths x) (-3))
  /\ finite (of_decimal (negative x) (thousandths x) (-3)) = true.
Proof.
  intros Hx Hs. pose proof (thousandths_range x Hs) as Hn.
  destruct (fixed_digits_split (thousandths x) ltac:(lia))
    as (a & b & Hf & Ha & Hb & Hla & Hlb & Hv).
  assert (Ht : toFixed3 Number_toString x
               = (if negative x then "-" else "") ++ a ++ "." ++ b).
  { unfold toFixed3. now rewrite Hx, Hs, Hf. }
  assert (Hfin : finite (of_decimal (negative x) (thousandths x) (-3)) = true)
    by (apply (below_finite 72), of_decimal_thousandths; exact Hn).
  split; [exists a, b; repeat split; auto|]. split; [|exact Hfin].
  rewrite Ht.
  destruct (unsigned_literal_fixed a b Ha Hb Hla Hlb) as (Hrc & Hh & Hu).
  destruct (signed_literal_unsigned _ Hh) as (H0 & Hm & _).
  unfold toNum. cbn [nullish parse_value].
  destruct (negative x).
  - rewrite append_cons, append_nil_l. cbn [remove_commas].
    change (Ascii.eqb "-" ",") with false. cbv iota. rewrite Hrc.
    unfold parseFloat. rewrite Hm, Hu. cbn [option_map]. rewrite Hv.
    now rewrite Hfin.
  - rewrite append_nil_l, Hrc.
    unfold parseFloat. rewrite H0, Hu. cbn [option_map]. rewrite Hv.
    now rewrite Hfin.
Qed.

End Pills.

(** [toFixed(3)] on some Numbers: 1.0005 is a double just below it and
    0.0025 one just above. *)
Example toFixed3_examples (Number_toString : float -> string) :
  toFixed3 Number_toString (dec 15 (-1)) = "1.500"
  /\ toFixed3 Number_toString (dec 10005 (-4)) = "1.000"
  /\ toFixed3 Number_toString (of_decimal true 25 (-4)) = "-0.003"
  /\ toFixed3 Number_toString (of_decimal true 1 (-4)) = "-0.000"
  /\ toFixed3 Number_toString (S754_zero true) = "0.000"
  /\ toFixed3 Number_toString (dec 1 20) = "100000000000000000000.000"
  /\ toFixed3 Number_toString (dec 1 21) = Number_toString (dec 1 21).
Proof. repeat split; vm_compute; reflexivity. Qed.

(** X16: a pill that shows a Number shows it with exactly three decimals.
    For a finite output below 1e21 in magnitude the pill's text is a minus
    sign when the Number is negative, at least one digit, the dot and
    exactly three digits, and the digits read as the Number's nearest count
    of thousandths, a tie rounded up in magnitude. *)
Theorem pill_shows_three_decimals
    (Number_toString : float -> string) (out : outputs_of) (o : output) (x : float) :
  out_prop out (out_key o) = Some (Some x) ->
  finite x = true -> at_least_1e21 x = false ->
  exists a b : string,
    pill_text Number_toString out o
    = (if negative x then "-" else "") ++ a ++ "." ++ b
    /\ all_digits a = true /\ all_digits b = true
    /\ (1 <= String.length a)%nat /\ String.length b = 3%nat
    /\ digits_value 0 (a ++ b) = thousandths x.
Proof.
  intros Ho Hx Hs. unfold pill_text. rewrite Ho. cbn [Number_isFinite num].
  rewrite Hx. now destruct (toFixed3_parses_back Number_toString x None Hx Hs).
Qed.

Lemma pill_shows_three_decimals_witness :
  exists a b : string,
    pill_text (fun _ => "") [("rNM", Some (dec 10005 (-4)))] (Output "rNM" "Turn Radius (NM)")
    = (if negative (dec 10005 (-4)) then "-" else "") ++ a ++ "." ++ b
    /\ all_digits a = true /\ all_digits b = true
    /\ (1 <= String.length a)%nat /\ String.length b = 3%nat
    /\ digits_value 0 (a ++ b) = thousandths (dec 10005 (-4)).
Proof.
  apply (pill_shows_three_decimals (fun _ => "")); vm_compute; reflexivity.
Defined.

(** X17: a pill's text typed back into a field is read as the Number shown.
    For a finite output below 1e21 in magnitude, [toNum] of the pill's text
    is, with every fallback, the double nearest to the count of thousandths
    shown over 1000, with the sign shown; it is finite. *)
Theorem pill_text_parses_back
    (Number_toString : float -> string) (out : outputs_of) (o : output)
    (x : float) (fb : result) :
  out_prop out (out_key o) = Some (Some x) ->
  finite x = true -> at_least_1e21 x = false ->
  toNum (Str (pill_text Number_toString out o)) fb
  = Some (of_decimal (negative x) (thousandths x) (-3))
  /\ finite (of_decimal (negative x) (thousandths x) (-3)) = true.
Proof.
  intros Ho Hx Hs. unfold pill_text. rewrite Ho. cbn [Number_isFinite num].
  rewrite Hx. now destruct (toFixed3_parses_back Number_toString x fb Hx Hs).
Qed.

Lemma pill_text_parses_back_witness :
  toNum (Str (pill_text (fun _ => "")
                [("rNM", Some (of_decimal true 10005 (-4)))]
                (Output "rNM" "Turn Radius (NM)"))) None
  = Some (of_decimal (negative (of_decimal true 10005 (-4)))
            (thousandths (of_decimal true 10005 (-4))) (-3))
  /\ finite (of_decimal (negative (of_decimal true 10005 (-4)))
               (thousandths (of_decimal true 10005 (-4))) (-3)) = true.
Proof.
  apply (pill_text_parses_back (fun _ => "")); vm_compute; reflexivity.
Defined.

Lemma toNum_none_default (w : value) (fb : result) :
  toNum w None = None -> toNum w fb = fb.
Proof. unfold toNum. now destruct (finite _). Qed.

(** Rewrites the parse of every field that holds no Number into the
    fallback. *)
Ltac no_numbers :=
  repeat match goal with
         | H : toNum (prop ?v ?k) None = None |- _ =>
             rewrite ?H, ?(toNum_none_default (prop v k) fallback0 H); clear H
         end.

(** X18: a formula none of whose fields holds a Number shows zeros.  For
    every formula but turnRadius and vdp, when the text of no declared
    field parses to a finite Number (blank, missing, or not numeric), every
    pill shows "0.000", but the pill of vvi and the custom distance of
    timeOut, which show the dash. *)
Theorem blank_fields_show_zero
    (tan : float -> float) (Number_toString : float -> string)
    (c : calc) (v : store) :
  c ∈ CALCS tan -> id c <> "turnRadius" -> id c <> "vdp" ->
  (forall f : field, f ∈ fields c -> toNum (prop v (key f)) None = None) ->
  sv_outputs (section_of Number_toString c v)
  = map (fun o =>
           (out_label o,
            if String.eqb (id c) "vvi" || String.eqb (out_key o) "distCustom"
            then "—" else "0.000"))
      (outputs c).
Proof.
  intros Hc Ht Hv Hn. apply Forall_forall in Hn. unfold CALCS in Hc.
  repeat (apply elem_of_cons in Hc as [-> | Hc]);
    [.. | now apply elem_of_nil in Hc];
    cbn [id fields compute outputs] in *; try (now destruct Ht); try (now destruct Hv);
    repeat match goal with
           | H : Forall _ (_ :: _) |- _ => apply Forall_cons in H as [? H]
           | H : Forall _ [] |- _ => clear H
           end;
    unfold fld in *; cbn [key] in *;
    unfold section_of; cbn [sv_outputs compute outputs];
    unfold gradient_compute, pitch_compute, ias2tas_compute, avgTas_compute,
      leadRadial_compute, leadDME_compute, arcDistance_compute,
      turningDistance_compute, loss90_compute, climbDescend_compute,
      timeOut_compute;
    rewrite ?vvi_compute_value;
    no_numbers; vm_compute; reflexivity.
Qed.

Lemma blank_fields_show_zero_witness :
  sv_outputs
    (section_of (fun _ => "")
       (Calc "leadDME" "8) Lead DME (NM)"
          [ fld "arcingDME" "Arcing DME (NM)";
            fld "rNM" "Turn Radius r (NM)" ]
          leadDME_compute
          [ Output "inbound" "Lead DME inbound (NM)";
            Output "outbound" "Lead DME outbound (NM)" ]
          (Some "Lead DME = Arcing DME ± r"))
       (store_of [("arcingDME", "n/a")]))
  = [("Lead DME inbound (NM)", "0.000"); ("Lead DME outbound (NM)", "0.000")].
Proof.
  apply (blank_fields_show_zero (fun x => x) (fun _ => "")).
  - unfold CALCS. do 7 apply list_elem_of_further. apply list_elem_of_here.
  - cbn [id]. discriminate.
  - cbn [id]. discriminate.
  - intros f Hf. cbn [fields] in Hf.
    repeat (apply elem_of_cons in Hf as [-> | Hf]; [vm_compute; reflexivity|]).
    now apply elem_of_nil in Hf.
Defined.

(** X19: typing is local to the formulas that declare the key.  Typing into
    the field of key [k] leaves the whole section of every formula that
    declares no field of key [k] as it was: its input texts and its
    pills. *)
Theorem typing_is_local
    (tan : float -> float) (Number_toString : float -> string)
    (c : calc) (values : store) (k val : string) :
  c ∈ CALCS tan ->
  (forall f : field, f ∈ fields c -> key f <> k) ->
  section_of Number_toString c (handle values (Typed k val))
  = section_of Number_toString c values.
Proof.
  intros Hc Hk.
  assert (Hf : forall f, f ∈ fields c ->
                 field_text (handle values (Typed k val)) f = field_text values f).
  { intros f Hin. cbn [handle]. unfold field_text, prop, setField.
    rewrite lookup_insert_ne; [reflexivity|].
    intros E. now apply (Hk f Hin). }
  unfold section_of. rewrite (compute_reads_texts tan c _ values Hc Hf).
  f_equal. apply map_ext_in. intros f Hin. f_equal.
  apply Hf. now apply list_elem_of_In.
Qed.

Lemma typing_is_local_witness :
  section_of (fun _ => "")
    (Calc "loss90" "11) Distance Lost to a 90° Turn"
       [ fld "rNM" "Turn Radius r (NM)" ]
       loss90_compute
       [ Output "lossNM" "Distance Lost (NM)" ]
       (Some "Loss (NM) = (2 × r) − (πr ÷ 2)"))
    (handle (store_of [("rNM", "2")]) (Typed "tasKt" "150"))
  = section_of (fun _ => "")
      (Calc "loss90" "11) Distance Lost to a 90° Turn"
         [ fld "rNM" "Turn Radius r (NM)" ]
         loss90_compute
         [ Output "lossNM" "Distance Lost (NM)" ]
         (Some "Loss (NM) = (2 × r) − (πr ÷ 2)"))
      (store_of [("rNM", "2")]).
Proof.
  apply (typing_is_local (fun x => x) (fun _ => "")).
  - unfold CALCS. do 10 apply list_elem_of_further. apply list_elem_of_here.
  - intros f Hf. cbn [fields] in Hf.
    repeat (apply elem_of_cons in Hf as [-> | Hf]; [discriminate|]).
    now apply elem_of_nil in Hf.
Defined.
